(** * Chat page: response normalisation, markup rendering and the send loop

    A shallow embedding of [src/app/page.tsx]:
    - [parseAgentResponse], the normaliser of the agent's payload;
    - [renderInline] and [MarkdownRenderer], the line-oriented renderer;
    - [sendMessage], the per-turn update of the transcript.

    JavaScript values are modelled by the inductive type [value]; a JavaScript
    string is a Rocq [string] whose characters are its UTF-16 code units
    (the code units below 256).  What the page takes from the host and cannot
    be read off its own text -- the Number type with its formatting, and
    [JSON.parse] -- is gathered in the class [Host], and everything is stated
    for an arbitrary host. *)

From Stdlib Require Import String Ascii List Bool Arith Lia ZArith.
From Stdlib Require Import Numbers.DecimalString.
From Stdlib Require Numbers.DecimalNat.
From Equations Require Import Equations.
Import ListNotations.
Local Open Scope list_scope.
Local Open Scope string_scope.

Set Implicit Arguments.

(** ** Strings of the host language *)

Module Str.

Definition TAB : ascii := "009"%char.
Definition LF : ascii := "010"%char.
Definition VT : ascii := "011"%char.
Definition FF : ascii := "012"%char.
Definition CR : ascii := "013"%char.
Definition SP : ascii := " "%char.
Definition NBSP : ascii := "160"%char.
Definition BS : ascii := "008"%char.
Definition DQUOTE : ascii := "034"%char.
Definition BACKSLASH : ascii := "092"%char.

(** A one-character string. *)
Definition chr (c : ascii) : string := String c EmptyString.

Definition non_empty (s : string) : bool :=
  match s with EmptyString => false | String _ _ => true end.

(** The code units that [String.prototype.trim] strips and that the
    regular-expression class [\s] accepts: WhiteSpace and LineTerminator,
    restricted to the code units below 256. *)
Definition is_white_space (c : ascii) : bool :=
  existsb (Ascii.eqb c) [TAB; LF; VT; FF; CR; SP; NBSP].

(** The code units that the regular-expression atom [.] refuses. *)
Definition is_line_terminator (c : ascii) : bool :=
  existsb (Ascii.eqb c) [LF; CR].

(** The regular-expression class [\d]. *)
Definition is_digit (c : ascii) : bool :=
  (48 <=? nat_of_ascii c)%nat && (nat_of_ascii c <=? 57)%nat.

Fixpoint trimStart (s : string) : string :=
  match s with
  | EmptyString => EmptyString
  | String c r => if is_white_space c then trimStart r else s
  end.

Fixpoint trimEnd (s : string) : string :=
  match s with
  | EmptyString => EmptyString
  | String c r =>
      match trimEnd r with
      | EmptyString => if is_white_space c then EmptyString else chr c
      | r' => String c r'
      end
  end.

(** [s.trim()] *)
Definition trim (s : string) : string := trimEnd (trimStart s).

(** [s.startsWith(p)] *)
Definition startsWith (s p : string) : bool := String.prefix p s.

(** [s.slice(n)] for [0 <= n]. *)
Fixpoint slice (s : string) (n : nat) : string :=
  match n, s with
  | O, _ => s
  | S _, EmptyString => EmptyString
  | S m, String _ r => slice r m
  end.

(** [s.split('\n')] *)
Fixpoint split_lines (s : string) : list string :=
  match s with
  | EmptyString => [EmptyString]
  | String c r =>
      if Ascii.eqb c LF then EmptyString :: split_lines r
      else match split_lines r with
           | l :: ls => String c l :: ls
           | [] => [chr c]
           end
  end.

(** [xs.join(sep)] on strings. *)
Fixpoint join (sep : string) (xs : list string) : string :=
  match xs with
  | [] => EmptyString
  | [x] => x
  | x :: rest => x ++ sep ++ join sep rest
  end.

(** The longest prefix of [s] made of characters accepted by [p], and what
    follows it. *)
Fixpoint split_while (p : ascii -> bool) (s : string) : string * string :=
  match s with
  | EmptyString => (EmptyString, EmptyString)
  | String c r =>
      if p c then let (a, b) := split_while p r in (String c a, b)
      else (EmptyString, s)
  end.

(** Every character of [s] is accepted by [p]. *)
Fixpoint forall_chars (p : ascii -> bool) (s : string) : bool :=
  match s with
  | EmptyString => true
  | String c r => p c && forall_chars p r
  end.

(** The text on one line: no character that [.] refuses. *)
Definition one_line (s : string) : bool :=
  forall_chars (fun c => negb (is_line_terminator c)) s.

(** The first character of [s], if any, is accepted by [p]. *)
Definition head_is (p : ascii -> bool) (s : string) : bool :=
  match s with EmptyString => false | String c _ => p c end.

(** The last character of [s], if any, is accepted by [p]. *)
Fixpoint last_is (p : ascii -> bool) (s : string) : bool :=
  match s with
  | EmptyString => false
  | String c EmptyString => p c
  | String _ r => last_is p r
  end.

End Str.

(** ** Values of the host language *)

(** The values a payload can be made of: what [JSON.parse] produces,
    and [undefined].  An object is the list of its own properties in the
    order in which the host enumerates them; an array is the list of its
    elements.  [number] is the host's Number type. *)
#[warnings="-register-all"]
Inductive value (number : Type) : Type :=
| VUndefined
| VNull
| VBool (b : bool)
| VNum (n : number)
| VStr (s : string)
| VArr (elements : list (value number))
| VObj (properties : list (string * value number)).

Arguments VUndefined {number}.
Arguments VNull {number}.
Arguments VBool {number} b.
Arguments VNum {number} n.
Arguments VStr {number} s.
Arguments VArr {number} elements.
Arguments VObj {number} properties.

(** What the page uses of the host without defining it. [Number_truthy] is
    ToBoolean on numbers (false on zeros and NaN), [Number_toString] is
    Number::toString, [Number_isFinite] tells the numbers that JSON can
    print, and [JSON_parse] returns [None] where [JSON.parse] throws. *)
Class Host : Type := {
  number : Type;
  Number_truthy : number -> bool;
  Number_toString : number -> string;
  Number_isFinite : number -> bool;
  JSON_parse : string -> option (value number)
}.

(** The outcome of an operation that may throw.  No handler of the page binds
    the exception it catches, so the thrown value is not recorded. *)
Inductive result (A : Type) : Type :=
| Ok (a : A)
| Thrown.

Arguments Ok {A} a.
Arguments Thrown {A}.

Module JS.

Import Str.

Section WithHost.

Context {host : Host}.

#[local] Abbreviation val := (value number).

(** ToBoolean *)
Definition truthy (v : val) : bool :=
  match v with
  | VUndefined | VNull => false
  | VBool b => b
  | VNum n => Number_truthy n
  | VStr s => non_empty s
  | VArr _ | VObj _ => true
  end.

Definition is_nullish (v : val) : bool :=
  match v with VUndefined | VNull => true | _ => false end.

(** [typeof v === 'string'] *)
Definition typeof_string (v : val) : bool :=
  match v with VStr _ => true | _ => false end.

(** [typeof v === 'object'] *)
Definition typeof_object (v : val) : bool :=
  match v with VNull | VArr _ | VObj _ => true | _ => false end.

(** [Array.isArray(v)] *)
Definition Array_isArray (v : val) : bool :=
  match v with VArr _ => true | _ => false end.

(** The own property [k] of an object, [undefined] when it has none. *)
Fixpoint own (ps : list (string * val)) (k : string) : val :=
  match ps with
  | [] => VUndefined
  | (k', v) :: rest => if String.eqb k' k then v else own rest k
  end.

Definition has_own (ps : list (string * val)) (k : string) : bool :=
  existsb (fun p => String.eqb (fst p) k) ps.

(** [v?.k], for the property names the page reads ([data], [response],
    [follow_up_suggestions], [summary], [text], [message], [answer],
    [success], [error], [result]): none of them is a property of a
    primitive's wrapper, of [Array.prototype] or of [Object.prototype], so
    only an own property of an object answers. *)
Definition get_opt (v : val) (k : string) : val :=
  match v with
  | VObj ps => own ps k
  | _ => VUndefined
  end.

(** [v.k], which throws a TypeError on [undefined] and [null]. *)
Definition get (v : val) (k : string) : result val :=
  if is_nullish v then Thrown else Ok (get_opt v k).

(** [String(v)].  An array is joined with commas, [undefined] and [null]
    elements printing as nothing.  An object without an own [toString] prints
    through [Object.prototype.toString]; with an own [toString], which is not
    callable in this value model, the conversion to a primitive finds no
    method that returns one and throws a TypeError. *)
Fixpoint ToString (v : val) : result string :=
  match v with
  | VUndefined => Ok "undefined"
  | VNull => Ok "null"
  | VBool true => Ok "true"
  | VBool false => Ok "false"
  | VNum n => Ok (Number_toString n)
  | VStr s => Ok s
  | VArr l =>
      (fix join_elements (l : list val) : result string :=
         match l with
         | [] => Ok ""
         | x :: rest =>
             match (if is_nullish x then Ok "" else ToString x) with
             | Thrown => Thrown
             | Ok sx =>
                 match rest with
                 | [] => Ok sx
                 | _ :: _ =>
                     match join_elements rest with
                     | Thrown => Thrown
                     | Ok sr => Ok (sx ++ "," ++ sr)
                     end
                 end
             end
         end) l
  | VObj ps => if has_own ps "toString" then Thrown else Ok "[object Object]"
  end.

(** Lower-case hexadecimal digit. *)
Definition hex_digit (n : nat) : ascii :=
  ascii_of_nat (if (n <? 10)%nat then 48 + n else 87 + n).

(** QuoteJSONString, character by character. *)
Definition quote_char (c : ascii) : string :=
  if Ascii.eqb c BS then String BACKSLASH "b"
  else if Ascii.eqb c TAB then String BACKSLASH "t"
  else if Ascii.eqb c LF then String BACKSLASH "n"
  else if Ascii.eqb c FF then String BACKSLASH "f"
  else if Ascii.eqb c CR then String BACKSLASH "r"
  else if Ascii.eqb c DQUOTE then String BACKSLASH (chr DQUOTE)
  else if Ascii.eqb c BACKSLASH then String BACKSLASH (chr BACKSLASH)
  else if (nat_of_ascii c <? 32)%nat then
    String BACKSLASH "u00" ++
    String (hex_digit (nat_of_ascii c / 16)) (chr (hex_digit (nat_of_ascii c mod 16)))
  else chr c.

Fixpoint quote_body (s : string) : string :=
  match s with
  | EmptyString => EmptyString
  | String c r => quote_char c ++ quote_body r
  end.

Definition QuoteJSONString (s : string) : string :=
  String DQUOTE (quote_body s ++ chr DQUOTE).

(** The gap of [JSON.stringify(v, null, 2)]. *)
Definition gap : string := "  ".

Definition keep_some {A} (xs : list (option A)) : list A :=
  flat_map (fun x => match x with Some a => [a] | None => [] end) xs.

(** SerializeJSONProperty at indentation [indent]; [None] is [undefined].
    No value of the model has a callable [toJSON], so none is called. *)
Fixpoint SerializeJSONProperty (indent : string) (v : val) : option string :=
  match v with
  | VUndefined => None
  | VNull => Some "null"
  | VBool true => Some "true"
  | VBool false => Some "false"
  | VNum n => Some (if Number_isFinite n then Number_toString n else "null")
  | VStr s => Some (QuoteJSONString s)
  | VArr l =>
      let stepback := indent in
      let indent := indent ++ gap in
      let partial :=
        map (fun x => match SerializeJSONProperty indent x with
                      | Some s => s
                      | None => "null"
                      end) l in
      match partial with
      | [] => Some "[]"
      | _ =>
          let separator := "," ++ chr LF ++ indent in
          Some ("[" ++ chr LF ++ indent ++ join separator partial
                    ++ chr LF ++ stepback ++ "]")
      end
  | VObj ps =>
      let stepback := indent in
      let indent := indent ++ gap in
      let partial :=
        keep_some
          (map (fun p => match SerializeJSONProperty indent (snd p) with
                         | Some s => Some (QuoteJSONString (fst p) ++ ": " ++ s)
                         | None => None
                         end) ps) in
      match partial with
      | [] => Some "{}"
      | _ =>
          let separator := "," ++ chr LF ++ indent in
          Some ("{" ++ chr LF ++ indent ++ join separator partial
                    ++ chr LF ++ stepback ++ "}")
      end
  end.

(** [JSON.stringify(v, null, 2)], a string or [undefined]. *)
Definition JSON_stringify (v : val) : val :=
  match SerializeJSONProperty "" v with
  | Some s => VStr s
  | None => VUndefined
  end.

End WithHost.

End JS.

(** ** The response normaliser: [parseAgentResponse] *)

Module Normalizer.

Import Str JS.

Section WithHost.

Context {host : Host}.

#[local] Abbreviation val := (value number).

(** The variables [text] and [suggestions] of the function.  The object
    literal [{ text, suggestions }] it returns has the same two fields, so the
    same record stands for it.  Both hold values: the type annotations of the
    source are erased when it runs. *)
Record locals : Type := { text : val; suggestions : val }.

(** How a statement completes. *)
Inductive completion (A : Type) : Type :=
| Normal (a : A) (env : locals)
| Return (r : locals)
| Throw (env : locals).

Arguments Normal {A} a env.
Arguments Return {A} r.
Arguments Throw {A} env.

Definition M (A : Type) : Type := locals -> completion A.

Definition ret {A} (a : A) : M A := fun env => Normal a env.

Definition bind {A B} (m : M A) (k : A -> M B) : M B :=
  fun env =>
    match m env with
    | Normal a env' => k a env'
    | Return r => Return r
    | Throw env' => Throw env'
    end.

Notation "x <- c1 ;; c2" := (bind c1 (fun x => c2))
  (at level 61, c1 at next level, right associativity).
Notation "c1 ;; c2" := (bind c1 (fun _ => c2))
  (at level 61, right associativity).
Notation "v ?. k" := (get_opt v k) (at level 20, left associativity).

(** [text = v] and [suggestions = v] *)
Definition set_text (v : val) : M unit :=
  fun env => Normal tt {| text := v; suggestions := suggestions env |}.

Definition set_suggestions (v : val) : M unit :=
  fun env => Normal tt {| text := text env; suggestions := v |}.

(** [return { text, suggestions }] *)
Definition return_locals {A} : M A := fun env => Return env.

Definition lift {A} (r : result A) : M A :=
  fun env => match r with Ok a => Normal a env | Thrown => Throw env end.

(** [v.k] *)
Definition prop (v : val) (k : string) : M val := lift (get v k).

(** [String(v)] *)
Definition String_ (v : val) : M val :=
  s <- lift (ToString v);; ret (VStr s).

(** [JSON.parse(v)]: the argument is converted to a string, then parsed. *)
Definition JSON_parse_ (v : val) : M val :=
  s <- lift (ToString v);;
  match JSON_parse s with
  | Some parsed => ret parsed
  | None => lift Thrown
  end.

(** [try { body } catch { handler }] *)
Definition try_catch {A} (body handler : M A) : M A :=
  fun env =>
    match body env with
    | Throw env' => handler env'
    | c => c
    end.

(** [if (c) { m }] *)
Definition when (c : bool) (m : M unit) : M unit :=
  if c then m else ret tt.

(** [a && b], where [b] is evaluated only when [a] is truthy. *)
Definition and_also (a : bool) (b : M bool) : M bool :=
  if a then b else ret false.

(** Four properties of a computation, used to follow [suggestions] along
    the function: [quiet], it leaves [suggestions] as it found it, however it
    completes; [total], it does not throw; [tidy], started with no
    suggestions it throws with no suggestions; [neat], started with no
    suggestions it throws or goes on with no suggestions. *)
Definition untouched (env : locals) : Prop := suggestions env = VArr [].

Definition quiet {A} (m : M A) : Prop :=
  forall env, match m env with
              | Normal _ env' | Throw env' => suggestions env' = suggestions env
              | Return _ => True
              end.

Definition total {A} (m : M A) : Prop :=
  forall env, match m env with Throw _ => False | _ => True end.

Definition tidy {A} (m : M A) : Prop :=
  forall env, untouched env ->
              match m env with Throw env' => untouched env' | _ => True end.

Definition neat {A} (m : M A) : Prop :=
  forall env, untouched env ->
              match m env with
              | Normal _ env' | Throw env' => untouched env'
              | Return _ => True
              end.

(** The block guarded by the outer [try] of [parseAgentResponse]. *)
Definition parseAgentResponse_try (result : val) : M unit :=
  (* Primary path: result.data.response *)
  when (truthy (result ?. "data" ?. "response"))
    (data <- prop result "data";;
     response <- prop data "response";;
     s <- String_ response;;
     set_text s;;
     when (Array_isArray (result ?. "data" ?. "follow_up_suggestions"))
       (data <- prop result "data";;
        f <- prop data "follow_up_suggestions";;
        set_suggestions f);;
     return_locals);;
  (* If result itself has a response field (flat structure) *)
  flat <- and_also (truthy (result ?. "response"))
            (response <- prop result "response";;
             ret (typeof_string response));;
  when flat
    (response <- prop result "response";;
     set_text response;;
     when (Array_isArray (result ?. "follow_up_suggestions"))
       (f <- prop result "follow_up_suggestions";;
        set_suggestions f);;
     return_locals);;
  (* Try to parse result if it is a string containing JSON *)
  when (typeof_string result)
    (try_catch
       (parsed <- JSON_parse_ result;;
        when (truthy (parsed ?. "data" ?. "response"))
          (data <- prop parsed "data";;
           response <- prop data "response";;
           s <- String_ response;;
           set_text s;;
           when (Array_isArray (parsed ?. "data" ?. "follow_up_suggestions"))
             (data <- prop parsed "data";;
              f <- prop data "follow_up_suggestions";;
              set_suggestions f);;
           return_locals);;
        when (truthy (parsed ?. "response"))
          (response <- prop parsed "response";;
           s <- String_ response;;
           set_text s;;
           return_locals))
       (set_text result;;
        return_locals));;
  (* Fallback: extract any recognizable text field *)
  if truthy (result ?. "summary") then
    (v <- prop result "summary";; s <- String_ v;; set_text s)
  else if truthy (result ?. "text") then
    (v <- prop result "text";; s <- String_ v;; set_text s)
  else if truthy (result ?. "message") then
    (v <- prop result "message";; s <- String_ v;; set_text s)
  else if truthy (result ?. "answer") then
    (v <- prop result "answer";; s <- String_ v;; set_text s)
  else if negb (is_nullish result) then
    (if typeof_object result then set_text (JSON_stringify result)
     else (s <- String_ result;; set_text s))
  else set_text (VStr "No response received.").

(** The variables when the function is entered: [let text = ''] and
    [let suggestions = []]. *)
Definition entry : locals := {| text := VStr ""; suggestions := VArr [] |}.

(** The body of [parseAgentResponse], run from the initial values of its
    variables. *)
Definition parseAgentResponse (result : val) : completion unit :=
  (try_catch (parseAgentResponse_try result)
     (set_text (VStr "Unable to parse response."));;
   return_locals) entry.

(** The parts of the guarded block, named.  The primary path, which the
    string path repeats on the parsed value: *)
Definition nested_block (v : val) : M unit :=
  data <- prop v "data";;
  response <- prop data "response";;
  s <- String_ response;;
  set_text s;;
  when (Array_isArray (v ?. "data" ?. "follow_up_suggestions"))
    (data <- prop v "data";;
     f <- prop data "follow_up_suggestions";;
     set_suggestions f);;
  return_locals.

(** the flat path: *)
Definition flat_block (v : val) : M unit :=
  response <- prop v "response";;
  set_text response;;
  when (Array_isArray (v ?. "follow_up_suggestions"))
    (f <- prop v "follow_up_suggestions";;
     set_suggestions f);;
  return_locals.

(** what the string path does with the parsed value: *)
Definition parsed_block (parsed : val) : M unit :=
  when (truthy (parsed ?. "data" ?. "response")) (nested_block parsed);;
  when (truthy (parsed ?. "response"))
    (response <- prop parsed "response";;
     s <- String_ response;;
     set_text s;;
     return_locals).

(** the string path: *)
Definition string_block (v : val) : M unit :=
  try_catch (parsed <- JSON_parse_ v;; parsed_block parsed)
    (set_text v;; return_locals).

(** the block that the inner [try] of the string path guards, of which
    [string_block] is the [try_catch]: *)
Definition string_try (v : val) : M unit :=
  parsed <- JSON_parse_ v;; parsed_block parsed.

(** one arm of the fallback, and the fallback: *)
Definition take_field (v : val) (k : string) : M unit :=
  x <- prop v k;; s <- String_ x;; set_text s.

Definition fallback_chain (v : val) : M unit :=
  if truthy (v ?. "summary") then take_field v "summary"
  else if truthy (v ?. "text") then take_field v "text"
  else if truthy (v ?. "message") then take_field v "message"
  else if truthy (v ?. "answer") then take_field v "answer"
  else if negb (is_nullish v) then
    (if typeof_object v then set_text (JSON_stringify v)
     else (s <- String_ v;; set_text s))
  else set_text (VStr "No response received.").

(** The guarded block, put together from its parts. *)
Definition parseAgentResponse_parts (v : val) : M unit :=
  when (truthy (v ?. "data" ?. "response")) (nested_block v);;
  flat <- and_also (truthy (v ?. "response"))
            (response <- prop v "response";;
             ret (typeof_string response));;
  when flat (flat_block v);;
  when (typeof_string v) (string_block v);;
  fallback_chain v.

End WithHost.

Arguments Normal {host A} a env.
Arguments Return {host A} r.
Arguments Throw {host A} env.

Notation "x <- c1 ;; c2" := (bind c1 (fun x => c2))
  (at level 61, c1 at next level, right associativity).
Notation "c1 ;; c2" := (bind c1 (fun _ => c2))
  (at level 61, right associativity).
Notation "v ?. k" := (JS.get_opt v k) (at level 20, left associativity).

End Normalizer.

(** ** The markup renderer: [renderInline] and [MarkdownRenderer] *)

Module Markup.

Import Str.

(** What [renderInline] pushes on [parts]: a slice of the text, a [<strong>]
    element or a [<code>] element. *)
Inductive span : Type :=
| Plain (s : string)
| Strong (s : string)
| Code (s : string).

(** What [renderInline] returns: [parts] when it is not empty, else the text
    it was given. *)
Inductive inline : Type :=
| Parts (parts : list span)
| Text (s : string).

(** The element a line is rendered to. *)
Inductive block : Type :=
| Blank
| Heading (level : nat) (content : inline)
| BulletItem (content : inline)
| NumberedItem (index : string) (content : inline)
| Paragraph (content : inline).

(** The lazy group [(.+?)] followed by the literal [close]: the shortest
    non-empty run [x] of characters accepted by [.] such that [close] follows.
    Returns [x] and what follows [close]. *)
Fixpoint lazy_then (close : string) (s : string) : option (string * string) :=
  match s with
  | EmptyString => None
  | String c r =>
      if is_line_terminator c then None
      else if startsWith r close then Some (chr c, slice r (String.length close))
      else match lazy_then close r with
           | Some (x, rest) => Some (String c x, rest)
           | None => None
           end
  end.

(** One alternative of the pattern, [opening (.+?) closing], anchored at the
    head of [s]. *)
Definition delimited (opening closing : string) (s : string)
  : option (string * string) :=
  if startsWith s opening
  then lazy_then closing (slice s (String.length opening))
  else None.

(** The pattern of [renderInline] anchored at the head of [s].  Its first
    alternative is two asterisks, the lazy group 2 and two asterisks; its
    second is a backtick, the lazy group 4 and a backtick.  Returns the
    element pushed for the match and the text after the match; a group that
    is set is not empty, so the tests [match[2]] and [match[4]] of the source
    tell which alternative matched. *)
Definition match_here (s : string) : option (span * string) :=
  match delimited "**" "**" s with
  | Some (g2, rest) => Some (Strong g2, rest)
  | None =>
      match delimited "`" "`" s with
      | Some (g4, rest) => Some (Code g4, rest)
      | None => None
      end
  end.

(** [regex.exec] on the text from [lastIndex] on: the first position at which
    the pattern matches.  Returns the slice before the match, the element for
    the match, and the text from the new [lastIndex] on. *)
Fixpoint exec (s : string) : option (string * span * string) :=
  match match_here s with
  | Some (sp, rest) => Some (EmptyString, sp, rest)
  | None =>
      match s with
      | EmptyString => None
      | String c r =>
          match exec r with
          | Some (before, sp, rest) => Some (String c before, sp, rest)
          | None => None
          end
      end
  end.

(** [if (match.index > lastIndex) parts.push(text.slice(lastIndex, match.index))]
    and [if (lastIndex < text.length) parts.push(text.slice(lastIndex))] *)
Definition push_slice (s : string) : list span :=
  if non_empty s then [Plain s] else [].

(** Every match of the pattern consumes at least one character, which is
    what makes the loop of [renderInline] stop. *)
Lemma slice_length (s : string) (n : nat) :
  String.length (slice s n) = String.length s - n.
Proof.
  revert s; induction n as [|n IH]; intros [|c r]; simpl; auto.
Qed.

Lemma lazy_then_shorter (close s x rest : string) :
  lazy_then close s = Some (x, rest) -> String.length rest < String.length s.
Proof.
  revert x; induction s as [|c r IH]; simpl; intros x H; [discriminate|].
  destruct (is_line_terminator c); [discriminate|].
  destruct (startsWith r close).
  - inversion H; subst. rewrite slice_length. lia.
  - destruct (lazy_then close r) as [[x' rest']|]; [|discriminate].
    inversion H; subst. specialize (IH _ eq_refl). lia.
Qed.

Lemma delimited_shorter (opening closing s x rest : string) :
  delimited opening closing s = Some (x, rest) ->
  String.length rest < String.length s.
Proof.
  unfold delimited. destruct (startsWith s opening); [|discriminate].
  intros H. apply lazy_then_shorter in H. rewrite slice_length in H. lia.
Qed.

Lemma match_here_shorter (s : string) (sp : span) (rest : string) :
  match_here s = Some (sp, rest) -> String.length rest < String.length s.
Proof.
  unfold match_here.
  destruct (delimited "**" "**" s) as [[g2 r2]|] eqn:E2.
  - intros H; inversion H; subst. eapply delimited_shorter; eauto.
  - destruct (delimited "`" "`" s) as [[g4 r4]|] eqn:E4; [|discriminate].
    intros H; inversion H; subst. eapply delimited_shorter; eauto.
Qed.

Lemma exec_shorter (s before : string) (sp : span) (rest : string) :
  exec s = Some (before, sp, rest) -> String.length rest < String.length s.
Proof.
  revert before; induction s as [|c r IH]; intros before.
  - discriminate.
  - cbn [exec].
    destruct (match_here (String c r)) as [[sp' rest']|] eqn:E.
    + intros H; inversion H; subst. now apply match_here_shorter in E.
    + destruct (exec r) as [[[b' sp'] rest']|]; [|discriminate].
      intros H; inversion H; subst. specialize (IH _ eq_refl). simpl. lia.
Qed.

(** A value together with the proof that it is what was computed. *)
Definition inspect {A : Type} (x : A) : {y : A | x = y} := exist _ x eq_refl.

(** The loop of [renderInline]: the elements pushed on [parts], for the text
    from [lastIndex] on. *)
Equations? scan (s : string) : list span by wf (String.length s) lt :=
  scan s with inspect (exec s) := {
    | exist _ None _ => push_slice s
    | exist _ (Some (before, sp, rest)) e =>
        (push_slice before ++ sp :: scan rest)%list }.
Proof. eapply exec_shorter; eauto. Qed.

(** [renderInline(text)] *)
Definition renderInline (text : string) : inline :=
  let parts := scan text in
  if (0 <? List.length parts)%nat then Parts parts else Text text.

(** The pattern of [MarkdownRenderer] for numbered lines, anchored at the
    start of the line: group 1 is one or more digits, then a dot, then one
    character of the class [\s], then group 2, one or more characters accepted
    by [.], as many as there are.  Returns the two groups. *)
Definition numMatch (s : string) : option (string * string) :=
  let (digits, after_digits) := split_while is_digit s in
  if non_empty digits then
    match after_digits with
    | String "." (String w after_space) =>
        if is_white_space w then
          let (content, _) :=
            split_while (fun c => negb (is_line_terminator c)) after_space in
          if non_empty content then Some (digits, content) else None
        else None
    | _ => None
    end
  else None.

(** The element for one line: the body of the function mapped over
    [lines]. *)
Definition render_line (line : string) : block :=
  let trimmed := trim line in
  if String.eqb trimmed "" then Blank
  else if startsWith trimmed "### " then Heading 3 (renderInline (slice trimmed 4))
  else if startsWith trimmed "## " then Heading 2 (renderInline (slice trimmed 3))
  else if startsWith trimmed "# " then Heading 1 (renderInline (slice trimmed 2))
  else if startsWith trimmed "- " || startsWith trimmed "* "
  then BulletItem (renderInline (slice trimmed 2))
  else match numMatch trimmed with
       | Some (g1, g2) => NumberedItem g1 (renderInline g2)
       | None => Paragraph (renderInline trimmed)
       end.

(** [MarkdownRenderer({ content })]: the children of the outer [<div>]. *)
Definition MarkdownRenderer (content : string) : list block :=
  let lines := split_lines content in
  map render_line lines.

(** The shapes of text the patterns accept.  [x] is a span of [s] between
    [opening] and [closing], followed by [rest]: *)
Definition spans (opening closing s x rest : string) : Prop :=
  s = opening ++ x ++ closing ++ rest /\ x <> "" /\ one_line x = true.

(** no shorter group would do, the closing marker does not follow a proper
    prefix of [x]: *)
Definition shortest (closing x rest : string) : Prop :=
  forall x1 x2, x = x1 ++ x2 -> x1 <> "" -> x2 <> "" ->
                startsWith (x2 ++ closing ++ rest) closing = false.

(** [t] is one or more digits [ds], a dot, one white-space character [w],
    and a text that starts with a character [c] accepted by [.]: *)
Definition numbered_form (t ds : string) (w c : ascii) (r : string) : Prop :=
  t = ds ++ "." ++ String w (String c r) /\
  ds <> "" /\ forall_chars is_digit ds = true /\
  is_white_space w = true /\ is_line_terminator c = false.

(** The part of [s] before its first line terminator. *)
Definition first_line (s : string) : string :=
  fst (split_while (fun c => negb (is_line_terminator c)) s).

(** The text shown in front of a numbered item: group 1 and a dot. *)
Definition displayed_index (b : block) : option string :=
  match b with
  | NumberedItem g1 _ => Some (g1 ++ ".")
  | _ => None
  end.

End Markup.

(** ** The send loop: [sendMessage] and the handlers around it *)

Module Chat.

Import Str JS Normalizer.

Section WithHost.

Context {host : Host}.

#[local] Abbreviation val := (value number).

Definition AGENT_ID : string := "698b28fbd6b1284eb616bf79".

Inductive Role : Type := user | assistant.

(** An entry of the transcript.  [followUpSuggestions] and [isError] are
    optional fields: [None] is a message built without the field. *)
Record ChatMessage : Type := {
  id : string;
  role : Role;
  content : val;
  timestamp : string;
  followUpSuggestions : option val;
  isError : option bool
}.

(** The state of [Home] that [sendMessage] and the chat handlers read and
    write: the [useState] cells and the counter behind [getNextId]. *)
Record state : Type := {
  messages : list ChatMessage;
  inputValue : string;
  isLoading : bool;
  showNewChatConfirm : bool;
  activeAgentId : option string;
  idCounter : nat
}.

Definition initial : state := {|
  messages := [];
  inputValue := "";
  isLoading := false;
  showNewChatConfirm := false;
  activeAgentId := None;
  idCounter := 0
|}.

(** [getNextId()]: the counter after the increment, and the id made of it. *)
Definition getNextId (st : state) : string * state :=
  let n := S (idCounter st) in
  ("msg-" ++ NilEmpty.string_of_uint (Nat.to_uint n),
   {| messages := messages st; inputValue := inputValue st;
      isLoading := isLoading st; showNewChatConfirm := showNewChatConfirm st;
      activeAgentId := activeAgentId st; idCounter := n |}).

(** [setMessages((prev) => [...prev, m])] *)
Definition append_message (m : ChatMessage) (st : state) : state :=
  {| messages := (messages st ++ [m])%list; inputValue := inputValue st;
     isLoading := isLoading st; showNewChatConfirm := showNewChatConfirm st;
     activeAgentId := activeAgentId st; idCounter := idCounter st |}.

(** The arguments of a call to [callAIAgent]. *)
Record call : Type := { call_message : string; call_agent : string }.

(** [sendMessage(text)] up to its [await], with [ts] the value of
    [getTimestamp()].  [None] is the early [return]; otherwise the state once
    the updates are applied and the call that was issued. *)
Definition sendMessage_begin (text : string) (ts : string) (st : state)
  : option (state * call) :=
  let trimmed := trim text in
  if negb (non_empty trimmed) || isLoading st then None
  else
    let (uid, st1) := getNextId st in
    let userMessage :=
      {| id := uid; role := user; content := VStr trimmed; timestamp := ts;
         followUpSuggestions := None; isError := None |} in
    let st2 := append_message userMessage st1 in
    let st3 :=
      {| messages := messages st2; inputValue := ""; isLoading := true;
         showNewChatConfirm := showNewChatConfirm st2;
         activeAgentId := Some AGENT_ID; idCounter := idCounter st2 |} in
    Some (st3, {| call_message := trimmed; call_agent := AGENT_ID |}).

(** How the awaited promise settles. *)
Inductive settlement : Type :=
| Fulfilled (result : val)
| Rejected.

(** [a || b] *)
Definition or_else (a b : val) : val := if truthy a then a else b.

(** The [catch] block of [sendMessage]. *)
Definition network_error (ts : string) (st : state) : state :=
  let (eid, st1) := getNextId st in
  append_message
    {| id := eid; role := assistant;
       content := VStr "A network error occurred. Please check your connection and try again.";
       timestamp := ts; followUpSuggestions := None; isError := Some true |}
    st1.

(** The [try] block of [sendMessage] after the [await], with [responseTs]
    the value of [getTimestamp()]; [None] when it throws. *)
Definition on_result (result : val) (responseTs : string) (st : state)
  : option state :=
  if truthy (get_opt result "success") then
    match parseAgentResponse
            (get_opt (get_opt result "response") "result") with
    | Return parsed =>
        let (aid, st1) := getNextId st in
        Some (append_message
                {| id := aid; role := assistant;
                   content :=
                     or_else (text parsed)
                       (VStr "I received your message but have no response to display.");
                   timestamp := responseTs;
                   followUpSuggestions := Some (suggestions parsed);
                   isError := None |}
                st1)
    | Normal _ _ | Throw _ => None
    end
  else
    let (eid, st1) := getNextId st in
    Some (append_message
            {| id := eid; role := assistant;
               content :=
                 or_else (get_opt result "error")
                   (or_else (get_opt (get_opt result "response") "message")
                      (VStr "Something went wrong. Please try again."));
               timestamp := responseTs;
               followUpSuggestions := None;
               isError := Some true |}
            st1).

(** The [finally] block. *)
Definition finally_ (st : state) : state :=
  {| messages := messages st; inputValue := inputValue st; isLoading := false;
     showNewChatConfirm := showNewChatConfirm st;
     activeAgentId := None; idCounter := idCounter st |}.

(** [sendMessage] from its [await] on: [ts] is read by the [try] block and
    [ts'] by the [catch] block. *)
Definition sendMessage_resume (s : settlement) (ts ts' : string) (st : state)
  : state :=
  finally_
    match s with
    | Fulfilled result =>
        match on_result result ts st with
        | Some st' => st'
        | None => network_error ts' st
        end
    | Rejected => network_error ts' st
    end.

(** [handleNewChat] and [confirmNewChat] *)
Definition handleNewChat (st : state) : state :=
  if (0 <? List.length (messages st))%nat then
    {| messages := messages st; inputValue := inputValue st;
       isLoading := isLoading st; showNewChatConfirm := true;
       activeAgentId := activeAgentId st; idCounter := idCounter st |}
  else st.

Definition confirmNewChat (st : state) : state :=
  {| messages := []; inputValue := ""; isLoading := isLoading st;
     showNewChatConfirm := false;
     activeAgentId := activeAgentId st; idCounter := idCounter st |}.

(** [handleTextareaChange] *)
Definition handleTextareaChange (v : string) (st : state) : state :=
  {| messages := messages st; inputValue := v; isLoading := isLoading st;
     showNewChatConfirm := showNewChatConfirm st;
     activeAgentId := activeAgentId st; idCounter := idCounter st |}.

(** The page and the calls to the agent that have not settled yet.  Each
    handler runs on the state of the latest render: React renders again at
    the end of the event that called a setter, before the next event. *)
Record world : Type := { page : state; in_flight : list call }.

Inductive event : Type :=
| Submit (text ts : string)
| Settle (s : settlement) (ts ts' : string)
| TextareaChange (v : string)
| NewChat
| ConfirmNewChat.

Definition step (w : world) (e : event) : world :=
  match e with
  | Submit text ts =>
      match sendMessage_begin text ts (page w) with
      | Some (st, c) => {| page := st; in_flight := (in_flight w ++ [c])%list |}
      | None => w
      end
  | Settle s ts ts' =>
      match in_flight w with
      | [] => w
      | _ :: rest =>
          {| page := sendMessage_resume s ts ts' (page w); in_flight := rest |}
      end
  | TextareaChange v =>
      {| page := handleTextareaChange v (page w); in_flight := in_flight w |}
  | NewChat => {| page := handleNewChat (page w); in_flight := in_flight w |}
  | ConfirmNewChat =>
      {| page := confirmNewChat (page w); in_flight := in_flight w |}
  end.

Definition run (es : list event) : world :=
  fold_left step es {| page := initial; in_flight := [] |}.

(** What holds of every world the page can reach: no call is in flight, or
    one is and the page is loading. *)
Definition one_in_flight (w : world) : Prop :=
  in_flight w = [] \/
  ((exists c, in_flight w = [c]) /\ isLoading (page w) = true).

(** The content of the error message for a result that reports a failure. *)
Definition failure_text (result : val) : val :=
  or_else (get_opt result "error")
    (or_else (get_opt (get_opt result "response") "message")
       (VStr "Something went wrong. Please try again.")).

(** The fixed texts of [sendMessage]. *)
Definition no_response_text : string :=
  "I received your message but have no response to display.".

Definition network_error_text : string :=
  "A network error occurred. Please check your connection and try again.".

End WithHost.

End Chat.

(** ** A host to run the page on

    The theorems below hold for every host.  To run the page on concrete
    payloads a host is fixed here: its numbers are the integers, printed in
    decimal, and its [JSON.parse] knows the JSON texts the examples use, on
    which it answers as [JSON.parse] does, and rejects the texts given to it
    that are not JSON. *)

Module Sample.

Import Str.

(** A JSON string token: the text between double quotes. *)
Definition quoted (s : string) : string := String DQUOTE (s ++ chr DQUOTE).

(** The JSON text of an object with the nested response [hi]. *)
Definition nested_hi : string :=
  "{" ++ quoted "data" ++ ":{" ++ quoted "response" ++ ":" ++ quoted "hi" ++ "}}".

(** The JSON text of an object whose [response] is [true]. *)
Definition response_true : string :=
  "{" ++ quoted "response" ++ ":true}".

(** The JSON text of an object whose [response] has an own [toString]. *)
Definition response_odd : string :=
  "{" ++ quoted "response" ++ ":{" ++ quoted "toString" ++ ":null}}".

(** The JSON text of an empty array. *)
Definition empty_array : string := "[]".

Definition parse_table : list (string * value Z) :=
  [ (nested_hi, VObj [("data", VObj [("response", VStr "hi")])]);
    (response_true, VObj [("response", VBool true)]);
    (response_odd, VObj [("response", VObj [("toString", VNull)])]);
    (empty_array, VArr []) ].

Fixpoint lookup (table : list (string * value Z)) (s : string) : option (value Z) :=
  match table with
  | [] => None
  | (k, v) :: rest => if String.eqb k s then Some v else lookup rest s
  end.

Definition host : Host := {|
  number := Z;
  Number_truthy := fun z => negb (Z.eqb z 0);
  Number_toString := fun z => NilEmpty.string_of_int (Z.to_int z);
  Number_isFinite := fun _ => true;
  JSON_parse := lookup parse_table
|}.

(** The values of this host. *)
Definition payload : Type := value (@number host).

(** Payloads. *)
Definition odd_response : payload :=
  VObj [("data", VObj [("response", VObj [("toString", VNum 1%Z)])])].

Definition greeting : payload :=
  VObj [("data",
         VObj [("response", VStr "Hi there!");
               ("follow_up_suggestions", VArr [VStr "Tell me more"; VNum 2%Z])])].

Definition response_false : payload :=
  VObj [("data", VObj [("response", VBool false)])].

Definition flat_answer : payload :=
  VObj [("response", VStr "X");
        ("follow_up_suggestions", VArr [VStr "s1"; VStr "s2"])].

Definition response_empty : payload := VObj [("response", VStr "")].

Definition summary_false : payload :=
  VObj [("summary", VBool false); ("text", VStr "hi")].

Definition only_message : payload :=
  VObj [("message", VStr "done"); ("answer", VStr "unused")].

Definition unrecognised : payload :=
  VObj [("status", VStr "ok"); ("items", VArr [VNum 1%Z; VNull])].

(** Results of the call to the agent: a success with the nested shape, a
    success whose payload is the empty string, and a reported failure. *)
Definition greeting_ok : payload :=
  VObj [("success", VBool true); ("response", VObj [("result", greeting)])].

Definition empty_ok : payload :=
  VObj [("success", VBool true); ("response", VObj [("result", VStr "")])].

Definition failed : payload :=
  VObj [("success", VBool false);
        ("response", VObj [("message", VStr "Agent is busy")])].

(** The indented serialisation of [unrecognised]. *)
Definition unrecognised_text : string :=
  Str.join (chr LF)
    [ "{";
      "  " ++ quoted "status" ++ ": " ++ quoted "ok" ++ ",";
      "  " ++ quoted "items" ++ ": [";
      "    1,";
      "    null";
      "  ]";
      "}" ].

End Sample.

(** ** The payload shapes, as the specification words them *)

Module Shapes.

Import Str JS.

Section WithHost.

Context {host : Host}.

#[local] Abbreviation val := (value number).

(** Nested shape, in the specification's words: a field at [data.response]
    that is non-empty when coerced to string. *)
Definition spec_nested (payload : val) (t : string) : Prop :=
  get_opt (get_opt payload "data") "response" <> VUndefined /\
  ToString (get_opt (get_opt payload "data") "response") = Ok t /\
  t <> "".

(** Flat shape, in the specification's words: a [response] field that is
    specifically a string. *)
Definition spec_flat (payload : val) (x : string) : Prop :=
  get_opt payload "response" = VStr x.

(** The fields of the generic fallback, in the order they are tried. *)
Definition fallback_fields : list string :=
  ["summary"; "text"; "message"; "answer"].

(** The first of the fields [ks] of [payload] whose value passes [p]. *)
Fixpoint first_field (p : val -> bool) (payload : val) (ks : list string)
  : option val :=
  match ks with
  | [] => None
  | k :: rest =>
      if p (get_opt payload k) then Some (get_opt payload k)
      else first_field p payload rest
  end.

(** The sibling sequence of suggestions: the field when it is an array, an
    empty array otherwise. *)
Definition suggestions_of (field : val) : val :=
  if Array_isArray field then field else VArr [].

End WithHost.

End Shapes.

(** * Properties *)

(** ** The response normaliser *)

Module NormalizerFacts.

Import Str JS Normalizer Shapes.

Section WithHost.

Context {host : Host}.

#[local] Abbreviation val := (value number).

Lemma truthy_not_nullish (v : val) : truthy v = true -> is_nullish v = false.
Proof. destruct v; simpl; congruence. Qed.

Lemma get_ok (v : val) (k : string) :
  is_nullish v = false -> get v k = Ok (v ?. k).
Proof. unfold get. intros ->. reflexivity. Qed.

Lemma get_truthy (v : val) (k : string) :
  truthy (v ?. k) = true -> get v k = Ok (v ?. k).
Proof. intros H. apply get_ok. destruct v; simpl in *; congruence. Qed.

Lemma get_array (v : val) (k : string) :
  Array_isArray (v ?. k) = true -> get v k = Ok (v ?. k).
Proof. intros H. apply get_ok. destruct v; simpl in *; congruence. Qed.

Lemma get_opt_of_nullish (v : val) (k : string) :
  is_nullish v = true -> v ?. k = VUndefined.
Proof. destruct v; simpl; congruence. Qed.

(** *** Exceptions never escape with the suggestions set *)

Lemma quiet_ret {A} (a : A) : quiet (ret a).
Proof. intros env; reflexivity. Qed.

Lemma quiet_lift {A} (r : result A) : quiet (lift r).
Proof. intros env; destruct r; reflexivity. Qed.

Lemma quiet_return {A} : quiet (@return_locals _ A).
Proof. intros env; exact I. Qed.

Lemma quiet_set_text (v : val) : quiet (set_text v).
Proof. intros env; reflexivity. Qed.

Lemma quiet_bind {A B} (m : M A) (k : A -> M B) :
  quiet m -> (forall a, quiet (k a)) -> quiet (bind m k).
Proof.
  intros Hm Hk env. unfold bind. specialize (Hm env).
  destruct (m env) as [a env'|r|env']; auto.
  specialize (Hk a env'). destruct (k a env'); auto; congruence.
Qed.

Lemma quiet_prop (v : val) (k : string) : quiet (prop v k).
Proof. apply quiet_lift. Qed.

Lemma quiet_String (v : val) : quiet (String_ v).
Proof. apply quiet_bind; [apply quiet_lift | intros; apply quiet_ret]. Qed.

Lemma quiet_JSON_parse (v : val) : quiet (JSON_parse_ v).
Proof.
  apply quiet_bind; [apply quiet_lift|]. intros s.
  destruct (JSON_parse s); [apply quiet_ret | apply quiet_lift].
Qed.

Lemma quiet_and_also (a : bool) (b : M bool) : quiet b -> quiet (and_also a b).
Proof. destruct a; simpl; auto using quiet_ret. Qed.

Lemma total_set_suggestions (v : val) : total (set_suggestions v).
Proof. intros env; exact I. Qed.

Lemma tidy_quiet {A} (m : M A) : quiet m -> tidy m.
Proof.
  intros H env U. specialize (H env). destruct (m env); auto.
  unfold untouched in *. congruence.
Qed.

Lemma tidy_total {A} (m : M A) : total m -> tidy m.
Proof. intros H env U. specialize (H env). destruct (m env); tauto. Qed.

(** A quiet computation followed by a tidy one. *)
Lemma tidy_bind {A B} (m : M A) (k : A -> M B) :
  quiet m -> (forall a, tidy (k a)) -> tidy (bind m k).
Proof.
  intros Hm Hk env U. unfold bind. specialize (Hm env).
  destruct (m env) as [a env'|r|env']; auto.
  - apply Hk. unfold untouched in *. congruence.
  - unfold untouched in *. congruence.
Qed.

Lemma tidy_when (c : bool) (m : M unit) : tidy m -> tidy (when c m).
Proof. destruct c; simpl; auto. intros _. apply tidy_quiet, quiet_ret. Qed.

Lemma neat_quiet {A} (m : M A) : quiet m -> neat m.
Proof.
  intros H env U. specialize (H env). unfold untouched in *.
  destruct (m env); auto; congruence.
Qed.

Lemma neat_bind {A B} (m : M A) (k : A -> M B) :
  neat m -> (forall a, neat (k a)) -> neat (bind m k).
Proof.
  intros Hm Hk env U. unfold bind. specialize (Hm env U).
  destruct (m env) as [a env'|r|env']; auto. now apply Hk.
Qed.

(** Whatever precedes a [return] may leave [suggestions] set. *)
Lemma neat_sealed {A B} (m : M A) :
  tidy m -> neat (m;; @return_locals _ B).
Proof.
  intros Hm env U. unfold bind. specialize (Hm env U).
  destruct (m env) as [a env'|r|env']; simpl; auto.
Qed.

Lemma neat_when (c : bool) (m : M unit) : neat m -> neat (when c m).
Proof. destruct c; simpl; auto. intros _. apply neat_quiet, quiet_ret. Qed.

Lemma neat_if {A} (c : bool) (m1 m2 : M A) :
  neat m1 -> neat m2 -> neat (if c then m1 else m2).
Proof. destruct c; auto. Qed.

Lemma neat_try_catch {A} (body handler : M A) :
  neat body -> neat handler -> neat (try_catch body handler).
Proof.
  intros Hb Hh env U. unfold try_catch. specialize (Hb env U).
  destruct (body env) as [a env'|r|env']; auto. now apply Hh.
Qed.

Create HintDb neat.

#[local] Hint Resolve quiet_ret quiet_lift quiet_return quiet_set_text
  quiet_prop quiet_String quiet_JSON_parse quiet_and_also quiet_bind : neat.

(** The rules are applied along the text of the function: a block that is
    quiet is neat; a block that ends in [return] is neat when what precedes
    the [return] is tidy, and there the assignment of [suggestions] is the
    last step. *)
Ltac tidy_block :=
  repeat first
    [ apply tidy_when
    | apply tidy_total, total_set_suggestions
    | apply tidy_bind; [solve [auto 10 with neat] | intros ?] ].

Ltac neat_block :=
  repeat first
    [ solve [apply neat_quiet; auto 10 with neat]
    | apply neat_sealed; solve [tidy_block]
    | apply neat_bind; [|intros ?]
    | apply neat_when
    | apply neat_if
    | apply neat_try_catch ].

Lemma parseAgentResponse_try_neat (result : val) :
  neat (parseAgentResponse_try result).
Proof. unfold parseAgentResponse_try. neat_block. Qed.

(** [parseAgentResponse] always completes by one of its [return]s. *)
Lemma parseAgentResponse_returns (payload : val) :
  exists r, parseAgentResponse payload = Return r.
Proof.
  unfold parseAgentResponse, try_catch, bind, set_text, return_locals.
  destruct (parseAgentResponse_try payload entry); eauto.
Qed.

(** *** The steps of the function, one by one *)

Ltac monad :=
  unfold take_field in *;
  unfold try_catch, bind, when, and_also, ret, prop, String_, lift,
    set_text, set_suggestions, return_locals, JSON_parse_ in *.

Lemma parseAgentResponse_try_parts (v : val) :
  parseAgentResponse_try v = parseAgentResponse_parts v.
Proof. reflexivity. Qed.

Lemma nested_block_run (v : val) (env : locals) :
  truthy (v ?. "data" ?. "response") = true ->
  nested_block v env =
  match ToString (v ?. "data" ?. "response") with
  | Ok t =>
      Return {| text := VStr t;
                suggestions :=
                  if Array_isArray (v ?. "data" ?. "follow_up_suggestions")
                  then v ?. "data" ?. "follow_up_suggestions"
                  else suggestions env |}
  | Thrown => Throw env
  end.
Proof.
  intros Ht. unfold nested_block. monad.
  assert (Hd : get v "data" = Ok (v ?. "data")).
  { apply get_ok. apply truthy_not_nullish in Ht.
    destruct v; simpl in *; congruence. }
  rewrite Hd, (get_truthy _ _ Ht).
  destruct (ToString (v ?. "data" ?. "response")) as [t|]; [|reflexivity].
  destruct (Array_isArray _) eqn:Ha; [|destruct env; reflexivity].
  rewrite (get_array _ _ Ha). reflexivity.
Qed.

Lemma flat_test (v : val) (env : locals) :
  and_also (truthy (v ?. "response"))
    (response <- prop v "response";; ret (typeof_string response)) env =
  Normal (truthy (v ?. "response") && typeof_string (v ?. "response")) env.
Proof.
  destruct (truthy (v ?. "response")) eqn:Ht; simpl; [|reflexivity].
  monad. rewrite (get_truthy _ _ Ht). reflexivity.
Qed.

Lemma flat_block_run (v : val) (env : locals) :
  truthy (v ?. "response") = true ->
  flat_block v env =
  Return {| text := v ?. "response";
            suggestions :=
              if Array_isArray (v ?. "follow_up_suggestions")
              then v ?. "follow_up_suggestions"
              else suggestions env |}.
Proof.
  intros Ht. unfold flat_block. monad. rewrite (get_truthy _ _ Ht).
  destruct (Array_isArray _) eqn:Ha; [|destruct env; reflexivity].
  rewrite (get_array _ _ Ha). reflexivity.
Qed.

Lemma take_field_run (v : val) (k : string) (env : locals) :
  truthy (v ?. k) = true ->
  take_field v k env =
  match ToString (v ?. k) with
  | Ok t => Normal tt {| text := VStr t; suggestions := suggestions env |}
  | Thrown => Throw env
  end.
Proof.
  intros Ht. monad. rewrite (get_truthy _ _ Ht).
  destruct (ToString (v ?. k)); reflexivity.
Qed.

Lemma parsed_block_run (p : val) (env : locals) :
  parsed_block p env =
  if truthy (p ?. "data" ?. "response") then nested_block p env
  else if truthy (p ?. "response") then
    match ToString (p ?. "response") with
    | Ok t => Return {| text := VStr t; suggestions := suggestions env |}
    | Thrown => Throw env
    end
  else Normal tt env.
Proof.
  unfold parsed_block. unfold bind at 1, when at 1.
  destruct (truthy (p ?. "data" ?. "response")) eqn:Hn.
  - rewrite (nested_block_run _ _ Hn). destruct (ToString _); reflexivity.
  - unfold ret at 1, when.
    destruct (truthy (p ?. "response")) eqn:Hr; [|reflexivity].
    monad. rewrite (get_truthy _ _ Hr).
    destruct (ToString (p ?. "response")); reflexivity.
Qed.

Lemma string_block_run (s : string) (env : locals) :
  string_block (VStr s) env =
  match JSON_parse s with
  | None => Return {| text := VStr s; suggestions := suggestions env |}
  | Some p =>
      match parsed_block p env with
      | Throw env' => Return {| text := VStr s; suggestions := suggestions env' |}
      | c => c
      end
  end.
Proof.
  unfold string_block, try_catch, JSON_parse_. unfold bind at 1.
  unfold bind at 1. simpl.
  destruct (JSON_parse s) as [p|]; [|reflexivity].
  unfold ret at 1. destruct (parsed_block p env); reflexivity.
Qed.

(** The function when the primary path is taken. *)
Lemma try_nested (v : val) (env : locals) :
  truthy (v ?. "data" ?. "response") = true ->
  parseAgentResponse_try v env = nested_block v env.
Proof.
  intros Ht. rewrite parseAgentResponse_try_parts.
  unfold parseAgentResponse_parts.
  unfold bind at 1. unfold when at 1. rewrite Ht.
  rewrite (nested_block_run _ env Ht).
  destruct (ToString _); reflexivity.
Qed.

(** The function past the primary path. *)
Lemma try_past_nested (v : val) (env : locals) :
  truthy (v ?. "data" ?. "response") = false ->
  parseAgentResponse_try v env =
  if truthy (v ?. "response") && typeof_string (v ?. "response")
  then flat_block v env
  else (when (typeof_string v) (string_block v);; fallback_chain v) env.
Proof.
  intros Hn. rewrite parseAgentResponse_try_parts.
  unfold parseAgentResponse_parts.
  unfold bind at 1. unfold when at 1. rewrite Hn. unfold ret at 1.
  unfold bind at 1. rewrite flat_test.
  destruct (truthy (v ?. "response") && typeof_string (v ?. "response")) eqn:Hf.
  - apply andb_prop in Hf as [Ht _].
    unfold bind at 1, when at 1. rewrite (flat_block_run _ _ Ht). reflexivity.
  - reflexivity.
Qed.

(** How the guarded block completes decides what the function returns. *)
Lemma parseAgentResponse_of_return (v : val) (r : locals) :
  parseAgentResponse_try v entry = Return r -> parseAgentResponse v = Return r.
Proof. unfold parseAgentResponse, try_catch, bind. intros ->. reflexivity. Qed.

Lemma parseAgentResponse_of_normal (v : val) (env : locals) :
  parseAgentResponse_try v entry = Normal tt env ->
  parseAgentResponse v = Return env.
Proof. unfold parseAgentResponse, try_catch, bind. intros ->. reflexivity. Qed.

Lemma parseAgentResponse_of_throw (v : val) (env : locals) :
  parseAgentResponse_try v entry = Throw env ->
  parseAgentResponse v =
  Return {| text := VStr "Unable to parse response.";
            suggestions := suggestions env |}.
Proof. unfold parseAgentResponse, try_catch, bind. intros ->. reflexivity. Qed.

Lemma suggestions_of_array (l : list val) : suggestions_of (VArr l) = VArr l.
Proof. reflexivity. Qed.

Lemma suggestions_of_other (f : val) :
  Array_isArray f = false -> suggestions_of f = VArr [].
Proof. unfold suggestions_of. intros ->. reflexivity. Qed.

Lemma serialize_object (indent : string) (v : val) :
  typeof_object v = true -> is_nullish v = false ->
  exists s, SerializeJSONProperty indent v = Some s.
Proof.
  destruct v; simpl; try discriminate; intros _ _.
  - destruct (map _ elements); eauto.
  - destruct (keep_some _); eauto.
Qed.

(** The function on a payload that is a string. *)
Lemma try_string (s : string) :
  parseAgentResponse_try (VStr s) entry =
  match JSON_parse s with
  | None => Return {| text := VStr s; suggestions := VArr [] |}
  | Some p =>
      match parsed_block p entry with
      | Normal _ env =>
          Normal tt {| text := VStr s; suggestions := suggestions env |}
      | Return r => Return r
      | Throw env => Return {| text := VStr s; suggestions := suggestions env |}
      end
  end.
Proof.
  rewrite try_past_nested by reflexivity. simpl andb. cbv iota.
  unfold bind at 1. simpl typeof_string. unfold when at 1.
  rewrite string_block_run.
  destruct (JSON_parse s) as [p|]; [|reflexivity].
  destruct (parsed_block p entry) as [[] env|r|env]; reflexivity.
Qed.

(** The function when none of the three strategies applies. *)
Lemma try_fallback (v : val) (env : locals) :
  truthy (v ?. "data" ?. "response") = false ->
  truthy (v ?. "response") && typeof_string (v ?. "response") = false ->
  typeof_string v = false ->
  parseAgentResponse_try v env = fallback_chain v env.
Proof.
  intros Hn Hf Hs. rewrite (try_past_nested _ _ Hn), Hf.
  unfold bind at 1. rewrite Hs. reflexivity.
Qed.

Lemma fallback_chain_field (v : val) (env : locals) (x : val) :
  first_field truthy v fallback_fields = Some x ->
  fallback_chain v env =
  match ToString x with
  | Ok t => Normal tt {| text := VStr t; suggestions := suggestions env |}
  | Thrown => Throw env
  end.
Proof.
  unfold fallback_chain, fallback_fields, first_field.
  destruct (truthy (v ?. "summary")) eqn:H1;
    [intros [= <-]; now apply take_field_run|].
  destruct (truthy (v ?. "text")) eqn:H2;
    [intros [= <-]; now apply take_field_run|].
  destruct (truthy (v ?. "message")) eqn:H3;
    [intros [= <-]; now apply take_field_run|].
  destruct (truthy (v ?. "answer")) eqn:H4;
    [intros [= <-]; now apply take_field_run|].
  discriminate.
Qed.

Lemma fallback_chain_none (v : val) (env : locals) :
  first_field truthy v fallback_fields = None ->
  fallback_chain v env =
  if is_nullish v then
    Normal tt {| text := VStr "No response received.";
                 suggestions := suggestions env |}
  else if typeof_object v then
    Normal tt {| text := JSON_stringify v; suggestions := suggestions env |}
  else (s <- String_ v;; set_text s) env.
Proof.
  unfold fallback_chain, fallback_fields, first_field.
  destruct (truthy (v ?. "summary")); [discriminate|].
  destruct (truthy (v ?. "text")); [discriminate|].
  destruct (truthy (v ?. "message")); [discriminate|].
  destruct (truthy (v ?. "answer")); [discriminate|].
  intros _. destruct (is_nullish v); simpl; [reflexivity|].
  destruct (typeof_object v); reflexivity.
Qed.

Lemma first_field_of_nullish (p : val -> bool) (v : val) (ks : list string) :
  is_nullish v = true -> p VUndefined = false -> first_field p v ks = None.
Proof.
  intros Hv Hp. induction ks as [|k ks IH]; simpl; [reflexivity|].
  rewrite (get_opt_of_nullish _ _ Hv), Hp. exact IH.
Qed.

(** The block guarded by the inner [try], on a payload that is a string. *)
Lemma string_try_run (s : string) (env : locals) :
  string_try (VStr s) env =
  match JSON_parse s with
  | None => Throw env
  | Some p => parsed_block p env
  end.
Proof.
  unfold string_try, JSON_parse_. unfold bind at 1. unfold bind at 1. simpl.
  destruct (JSON_parse s) as [p|]; reflexivity.
Qed.

(** When what the string path does with the parsed value throws, nothing
    has been assigned yet. *)
Lemma parsed_block_throw (p : val) (env env' : locals) :
  parsed_block p env = Throw env' -> env' = env.
Proof.
  rewrite parsed_block_run.
  destruct (truthy (p ?. "data" ?. "response")) eqn:Hn.
  - rewrite (nested_block_run _ _ Hn).
    destruct (ToString _); [discriminate|]. now intros [= <-].
  - destruct (truthy (p ?. "response")); [|discriminate].
    destruct (ToString _); [discriminate|]. now intros [= <-].
Qed.

(** *** The claims *)

(** C1, amended. The response normaliser never throws: for every payload it
    completes by returning a record.  An exception raised in its guarded
    block outside the string path reaches the outer handler, and the record
    is then the fixed text [Unable to parse response.] with empty
    suggestions.  An exception raised while a string payload is handled, by
    [JSON.parse] or by the coercion of a field of the parsed value, is caught
    by the inner handler: it never reaches the outer one, and the record is
    then the payload itself with empty suggestions. *)
Theorem parseAgentResponse_never_throws (payload : val) :
  exists r,
    parseAgentResponse payload = Return r /\
    (forall env,
        parseAgentResponse_try payload entry = Throw env ->
        r = {| text := VStr "Unable to parse response.";
               suggestions := VArr [] |}) /\
    (typeof_string payload = true ->
     string_block payload
     = try_catch (string_try payload) (set_text payload;; return_locals) /\
     (forall env, parseAgentResponse_try payload entry <> Throw env) /\
     (forall env,
         string_try payload entry = Throw env ->
         r = {| text := payload; suggestions := VArr [] |})).
Proof.
  destruct (parseAgentResponse_try payload entry) as [[] env|r|env] eqn:E.
  - exists env. split; [now apply parseAgentResponse_of_normal|].
    split; [discriminate|]. intros Hs. split; [reflexivity|].
    split; [discriminate|]. intros env' Ht.
    destruct payload as [| | | |s| |]; try discriminate Hs.
    rewrite try_string in E. rewrite string_try_run in Ht.
    destruct (JSON_parse s) as [p|]; [|discriminate E].
    rewrite Ht in E. discriminate E.
  - exists r. split; [now apply parseAgentResponse_of_return|].
    split; [discriminate|]. intros Hs. split; [reflexivity|].
    split; [discriminate|]. intros env' Ht.
    destruct payload as [| | | |s| |]; try discriminate Hs.
    rewrite try_string in E. rewrite string_try_run in Ht.
    destruct (JSON_parse s) as [p|].
    + rewrite Ht in E. apply parsed_block_throw in Ht. subst env'.
      now injection E as <-.
    + now injection E as <-.
  - pose proof (parseAgentResponse_try_neat payload) as U.
    specialize (U entry eq_refl). rewrite E in U. unfold untouched in U.
    eexists. split; [apply parseAgentResponse_of_throw; exact E|].
    split; [intros _ _; now rewrite U|]. intros Hs. exfalso.
    destruct payload as [| | | |s| |]; try discriminate Hs.
    rewrite try_string in E.
    destruct (JSON_parse s) as [p|]; [|discriminate E].
    destruct (parsed_block p entry) as [[] e|e|e]; discriminate E.
Qed.

(** C2, amended. For every payload whose [data.response] is truthy and can be
    coerced to a string, the normaliser returns that coercion as text; the
    suggestions are the sibling [data.follow_up_suggestions] itself when it is
    an array, and empty otherwise. *)
Theorem nested_shape (payload : val) (t : string) :
  truthy (payload ?. "data" ?. "response") = true ->
  ToString (payload ?. "data" ?. "response") = Ok t ->
  exists r,
    parseAgentResponse payload = Return r /\
    text r = VStr t /\
    (forall l, payload ?. "data" ?. "follow_up_suggestions" = VArr l ->
               suggestions r = VArr l) /\
    (Array_isArray (payload ?. "data" ?. "follow_up_suggestions") = false ->
     suggestions r = VArr []).
Proof.
  intros Ht Hs. eexists. split.
  - apply parseAgentResponse_of_return.
    rewrite (try_nested _ _ Ht), (nested_block_run _ _ Ht), Hs. reflexivity.
  - simpl. repeat split.
    + intros l ->. reflexivity.
    + intros ->. reflexivity.
Qed.

(** C3, amended. For every payload whose [data.response] is not truthy and
    whose [response] is a non-empty string, the normaliser returns that
    string as text; the suggestions are the sibling [follow_up_suggestions]
    itself, in its order, when it is an array, and empty otherwise. *)
Theorem flat_shape (payload : val) (x : string) :
  truthy (payload ?. "data" ?. "response") = false ->
  payload ?. "response" = VStr x ->
  x <> "" ->
  exists r,
    parseAgentResponse payload = Return r /\
    text r = VStr x /\
    (forall l, payload ?. "follow_up_suggestions" = VArr l ->
               suggestions r = VArr l) /\
    (Array_isArray (payload ?. "follow_up_suggestions") = false ->
     suggestions r = VArr []).
Proof.
  intros Hn Hx Hne.
  assert (Ht : truthy (payload ?. "response") = true).
  { rewrite Hx. destruct x; simpl; congruence. }
  eexists. split.
  - apply parseAgentResponse_of_return.
    rewrite (try_past_nested _ _ Hn), Ht, Hx. simpl andb. cbv iota.
    rewrite (flat_block_run _ _ Ht), Hx. reflexivity.
  - simpl. repeat split.
    + intros l ->. reflexivity.
    + intros ->. reflexivity.
Qed.

(** C4, amended. For every payload that is a string: when [JSON.parse]
    fails on it, the text is the string itself; when it parses to a value
    whose [data.response] is truthy, the text is the coercion of that field
    and the suggestions are as in the nested shape; when it parses to a value
    without a truthy [data.response] but with a truthy [response], of any
    type, the text is the coercion of [response] and the suggestions are
    empty; when it parses to a value with neither, or the coercion throws,
    the text is the string itself.  In particular the JSON text of
    [{data: {response: hi}}] yields the text [hi]. *)
Theorem string_payload (s : string) :
  (JSON_parse s = None ->
   parseAgentResponse (VStr s)
   = Return {| text := VStr s; suggestions := VArr [] |}) /\
  (forall p, JSON_parse s = Some p ->
     (forall t,
         truthy (p ?. "data" ?. "response") = true ->
         ToString (p ?. "data" ?. "response") = Ok t ->
         parseAgentResponse (VStr s)
         = Return {| text := VStr t;
                     suggestions :=
                       suggestions_of (p ?. "data" ?. "follow_up_suggestions") |}) /\
     (forall t,
         truthy (p ?. "data" ?. "response") = false ->
         truthy (p ?. "response") = true ->
         ToString (p ?. "response") = Ok t ->
         parseAgentResponse (VStr s)
         = Return {| text := VStr t; suggestions := VArr [] |}) /\
     (truthy (p ?. "data" ?. "response") = false ->
      truthy (p ?. "response") = false ->
      parseAgentResponse (VStr s)
      = Return {| text := VStr s; suggestions := VArr [] |}) /\
     (ToString (if truthy (p ?. "data" ?. "response")
                then p ?. "data" ?. "response" else p ?. "response") = Thrown ->
      parseAgentResponse (VStr s)
      = Return {| text := VStr s; suggestions := VArr [] |})) /\
  (JSON_parse Sample.nested_hi
   = Some (VObj [("data", VObj [("response", VStr "hi")])]) ->
   parseAgentResponse (VStr Sample.nested_hi)
   = Return {| text := VStr "hi"; suggestions := VArr [] |}).
Proof.
  split; [|split].
  - intros Hp. apply parseAgentResponse_of_return.
    rewrite try_string, Hp. reflexivity.
  - intros p Hp. repeat split.
    + intros t Hn Ht. apply parseAgentResponse_of_return.
      rewrite try_string, Hp, parsed_block_run, Hn.
      rewrite (nested_block_run _ _ Hn), Ht. reflexivity.
    + intros t Hn Hr Ht. apply parseAgentResponse_of_return.
      rewrite try_string, Hp, parsed_block_run, Hn, Hr, Ht.
      reflexivity.
    + intros Hn Hr. apply parseAgentResponse_of_normal.
      rewrite try_string, Hp, parsed_block_run, Hn, Hr. reflexivity.
    + intros Ht. apply parseAgentResponse_of_return.
      rewrite try_string, Hp, parsed_block_run.
      destruct (truthy (p ?. "data" ?. "response")) eqn:Hn.
      * rewrite (nested_block_run _ _ Hn), Ht. reflexivity.
      * destruct (truthy (p ?. "response")) eqn:Hr.
        -- rewrite Ht. reflexivity.
        -- destruct (p ?. "response") as [| |b| | | |];
             simpl in Ht; try discriminate.
           destruct b; discriminate.
  - intros Hp. apply parseAgentResponse_of_return.
    rewrite try_string, Hp. reflexivity.
Qed.

(** C5, amended. For every payload to which none of the nested, flat and
    string strategies applies: the first truthy value among the fields
    [summary], [text], [message], [answer], coerced to a string, is the text;
    when none of the four is truthy and the payload is an object, the text is
    its indented serialisation; when the payload is [null] or [undefined],
    the text is [No response received.]; in each case the suggestions are
    empty. *)
Theorem generic_fallback (payload : val) :
  truthy (payload ?. "data" ?. "response") = false ->
  truthy (payload ?. "response") && typeof_string (payload ?. "response")
  = false ->
  typeof_string payload = false ->
  (forall x t,
      first_field truthy payload fallback_fields = Some x ->
      ToString x = Ok t ->
      parseAgentResponse payload
      = Return {| text := VStr t; suggestions := VArr [] |}) /\
  (first_field truthy payload fallback_fields = None ->
   typeof_object payload = true ->
   is_nullish payload = false ->
   exists s,
     SerializeJSONProperty "" payload = Some s /\
     parseAgentResponse payload
     = Return {| text := VStr s; suggestions := VArr [] |}) /\
  (is_nullish payload = true ->
   parseAgentResponse payload
   = Return {| text := VStr "No response received.";
               suggestions := VArr [] |}).
Proof.
  intros Hn Hf Hs. repeat split.
  - intros x t Hx Ht. apply parseAgentResponse_of_normal.
    rewrite (try_fallback _ _ Hn Hf Hs), (fallback_chain_field _ _ Hx), Ht.
    reflexivity.
  - intros Hx Ho Hv.
    destruct (serialize_object "" _ Ho Hv) as [s Hser].
    exists s. split; [exact Hser|].
    apply parseAgentResponse_of_normal.
    rewrite (try_fallback _ _ Hn Hf Hs), (fallback_chain_none _ _ Hx), Hv, Ho.
    unfold JSON_stringify. rewrite Hser. reflexivity.
  - intros Hv. apply parseAgentResponse_of_normal.
    rewrite (try_fallback _ _ Hn Hf Hs).
    rewrite fallback_chain_none, Hv by now apply first_field_of_nullish.
    reflexivity.
Qed.

End WithHost.

End NormalizerFacts.

(** *** The normaliser on concrete payloads *)

Module NormalizerRuns.

Import Str JS Normalizer Shapes NormalizerFacts.

#[local] Existing Instance Sample.host.

(** A payload whose coercion throws inside the guarded block, and a string
    payload that [JSON.parse] rejects. *)
Lemma parseAgentResponse_never_throws_witness :
  parseAgentResponse_try Sample.odd_response entry = Throw entry /\
  parseAgentResponse Sample.odd_response
  = Return {| text := VStr "Unable to parse response.";
              suggestions := VArr [] |} /\
  typeof_string (VStr "plain text, not json" : Sample.payload) = true /\
  string_try (VStr "plain text, not json") entry = Throw entry /\
  parseAgentResponse (VStr "plain text, not json")
  = Return {| text := VStr "plain text, not json"; suggestions := VArr [] |}.
Proof.
  split; [reflexivity|]. split.
  { destruct (parseAgentResponse_never_throws Sample.odd_response)
      as [r [Hr [Hc _]]].
    rewrite Hr. f_equal. apply (Hc entry). reflexivity. }
  split; [reflexivity|]. split; [reflexivity|].
  destruct (parseAgentResponse_never_throws (VStr "plain text, not json"))
    as [r [Hr [_ Hc]]].
  rewrite Hr. f_equal.
  exact (proj2 (proj2 (Hc eq_refl)) entry eq_refl).
Defined.

(** C1 as stated fails: the payload is the JSON text of an object whose
    [response] has an own [toString]; the coercion of that field throws
    during the resolution, and the text returned is the payload, not the
    fixed text. *)
Lemma parseAgentResponse_never_throws_as_stated_fails :
  JSON_parse Sample.response_odd
  = Some (VObj [("response", VObj [("toString", VNull)])]) /\
  ToString (VObj [("toString", VNull)] : Sample.payload) = Thrown /\
  string_try (VStr Sample.response_odd) entry = Throw entry /\
  parseAgentResponse (VStr Sample.response_odd)
  = Return {| text := VStr Sample.response_odd; suggestions := VArr [] |} /\
  Sample.response_odd <> "Unable to parse response.".
Proof.
  split; [reflexivity|]. split; [reflexivity|]. split; [reflexivity|].
  split; [reflexivity|]. vm_compute. discriminate.
Qed.

(** The nested shape with suggestions of mixed types. *)
Lemma nested_shape_witness :
  truthy (Sample.greeting ?. "data" ?. "response") = true /\
  ToString (Sample.greeting ?. "data" ?. "response") = Ok "Hi there!" /\
  exists r,
    parseAgentResponse Sample.greeting = Return r /\
    text r = VStr "Hi there!" /\
    suggestions r = VArr [VStr "Tell me more"; VNum 2%Z].
Proof.
  split; [reflexivity|]. split; [reflexivity|].
  destruct (nested_shape Sample.greeting (t := "Hi there!") eq_refl eq_refl)
    as [r [Hr [Ht [Hs _]]]].
  exists r. split; [exact Hr|]. split; [exact Ht|].
  apply Hs. reflexivity.
Defined.

(** C2 as stated fails: [false] is a present field that coerces to a
    non-empty string, and the text is the serialised payload, not [false]. *)
Lemma nested_shape_as_stated_fails :
  spec_nested Sample.response_false "false" /\
  parseAgentResponse Sample.response_false
  = Return {| text := JSON_stringify Sample.response_false;
              suggestions := VArr [] |} /\
  JSON_stringify Sample.response_false <> VStr "false".
Proof.
  split; [|split].
  - repeat split; simpl; discriminate.
  - reflexivity.
  - vm_compute. discriminate.
Qed.

Lemma flat_shape_witness :
  truthy (Sample.flat_answer ?. "data" ?. "response") = false /\
  Sample.flat_answer ?. "response" = VStr "X" /\
  "X" <> "" /\
  exists r,
    parseAgentResponse Sample.flat_answer = Return r /\
    text r = VStr "X" /\
    suggestions r = VArr [VStr "s1"; VStr "s2"].
Proof.
  split; [reflexivity|]. split; [reflexivity|]. split; [discriminate|].
  destruct (flat_shape Sample.flat_answer (x := "X") eq_refl eq_refl)
    as [r [Hr [Ht [Hs _]]]]; [discriminate|].
  exists r. split; [exact Hr|]. split; [exact Ht|].
  apply Hs. reflexivity.
Defined.

(** C3 as stated fails: the empty string is a string, and the text is the
    serialised payload, not the empty string. *)
Lemma flat_shape_as_stated_fails :
  (forall t, ~ spec_nested Sample.response_empty t) /\
  spec_flat Sample.response_empty "" /\
  parseAgentResponse Sample.response_empty
  = Return {| text := JSON_stringify Sample.response_empty;
              suggestions := VArr [] |} /\
  JSON_stringify Sample.response_empty <> VStr "".
Proof.
  split; [|split; [|split]].
  - intros t [H _]. apply H. reflexivity.
  - reflexivity.
  - reflexivity.
  - vm_compute. discriminate.
Qed.

(** A JSON text with the nested shape, a text that is not JSON, a JSON text
    with neither shape, and one whose [response] cannot be coerced. *)
Lemma string_payload_witness :
  JSON_parse Sample.nested_hi
  = Some (VObj [("data", VObj [("response", VStr "hi")])]) /\
  parseAgentResponse (VStr Sample.nested_hi)
  = Return {| text := VStr "hi"; suggestions := VArr [] |} /\
  JSON_parse "plain text, not json" = None /\
  parseAgentResponse (VStr "plain text, not json")
  = Return {| text := VStr "plain text, not json"; suggestions := VArr [] |} /\
  JSON_parse Sample.empty_array = Some (VArr []) /\
  parseAgentResponse (VStr Sample.empty_array)
  = Return {| text := VStr Sample.empty_array; suggestions := VArr [] |} /\
  JSON_parse Sample.response_odd
  = Some (VObj [("response", VObj [("toString", VNull)])]) /\
  parseAgentResponse (VStr Sample.response_odd)
  = Return {| text := VStr Sample.response_odd; suggestions := VArr [] |}.
Proof.
  split; [reflexivity|]. split.
  { apply (proj2 (proj2 (string_payload Sample.nested_hi))). reflexivity. }
  split; [reflexivity|]. split.
  { apply (proj1 (string_payload "plain text, not json")). reflexivity. }
  split; [reflexivity|]. split.
  { assert (E : JSON_parse Sample.empty_array = Some (VArr []))
      by reflexivity.
    destruct (proj1 (proj2 (string_payload Sample.empty_array)) _ E)
      as (_ & _ & H & _).
    apply H; reflexivity. }
  split; [reflexivity|].
  assert (E : JSON_parse Sample.response_odd
              = Some (VObj [("response", VObj [("toString", VNull)])]))
    by reflexivity.
  destruct (proj1 (proj2 (string_payload Sample.response_odd)) _ E)
    as (_ & _ & _ & H).
  apply H. reflexivity.
Defined.

(** C4 as stated fails: the text parses to an object whose [response] is
    [true], which has neither the nested shape nor a [response] that is a
    string, and the text returned is [true], not the original string. *)
Lemma string_payload_as_stated_fails :
  JSON_parse Sample.response_true = Some (VObj [("response", VBool true)]) /\
  (forall t, ~ spec_nested (VObj [("response", VBool true)]) t) /\
  (forall x, ~ spec_flat (VObj [("response", VBool true)]) x) /\
  parseAgentResponse (VStr Sample.response_true)
  = Return {| text := VStr "true"; suggestions := VArr [] |} /\
  "true" <> Sample.response_true.
Proof.
  split; [reflexivity|]. split; [|split; [|split]].
  - intros t [H _]. apply H. reflexivity.
  - intros x H. discriminate H.
  - reflexivity.
  - vm_compute. discriminate.
Qed.

(** A field of the fallback, an object without any, and [null]. *)
Lemma generic_fallback_witness :
  parseAgentResponse Sample.only_message
  = Return {| text := VStr "done"; suggestions := VArr [] |} /\
  parseAgentResponse Sample.unrecognised
  = Return {| text := VStr Sample.unrecognised_text; suggestions := VArr [] |} /\
  parseAgentResponse (VNull : Sample.payload)
  = Return {| text := VStr "No response received."; suggestions := VArr [] |}.
Proof.
  split; [|split].
  - apply (proj1 (generic_fallback Sample.only_message
                    eq_refl eq_refl eq_refl) (VStr "done") "done");
      reflexivity.
  - destruct (proj1 (proj2 (generic_fallback Sample.unrecognised
                              eq_refl eq_refl eq_refl))
                eq_refl eq_refl eq_refl) as [s [Hs Hr]].
    rewrite Hr. vm_compute in Hs. injection Hs as <-. reflexivity.
  - apply (proj2 (proj2 (generic_fallback (VNull : Sample.payload)
                           eq_refl eq_refl eq_refl))).
    reflexivity.
Defined.

(** C5 as stated fails: [summary] is present and not null, its coercion is
    [false], and the text returned is that of the next field. *)
Lemma generic_fallback_as_stated_fails :
  (forall t, ~ spec_nested Sample.summary_false t) /\
  (forall x, ~ spec_flat Sample.summary_false x) /\
  typeof_string Sample.summary_false = false /\
  first_field (fun v => negb (is_nullish v)) Sample.summary_false
    fallback_fields = Some (VBool false) /\
  ToString (VBool false : Sample.payload) = Ok "false" /\
  parseAgentResponse Sample.summary_false
  = Return {| text := VStr "hi"; suggestions := VArr [] |}.
Proof.
  split; [|split]; [| |repeat split].
  - intros t [H _]. apply H. reflexivity.
  - intros x H. discriminate H.
Qed.

End NormalizerRuns.

(** ** The markup renderer *)

Module MarkupFacts.

Import Str Markup.

(** *** Strings *)

Lemma startsWith_app (p r : string) : startsWith (p ++ r) p = true.
Proof.
  unfold startsWith. induction p as [|c p IH]; simpl.
  - destruct r; reflexivity.
  - destruct (ascii_dec c c); congruence.
Qed.

Lemma startsWith_split (s p : string) :
  startsWith s p = true -> s = p ++ slice s (String.length p).
Proof.
  unfold startsWith. revert s; induction p as [|c p IH]; intros [|d s]; simpl;
    try reflexivity; try discriminate.
  destruct (ascii_dec c d) as [->|]; intros H; [|discriminate].
  f_equal. now apply IH.
Qed.

Lemma slice_app (p r : string) : slice (p ++ r) (String.length p) = r.
Proof. induction p as [|c p IH]; simpl; [destruct r|]; auto. Qed.

Lemma non_empty_true (s : string) : non_empty s = true <-> s <> "".
Proof. destruct s; simpl; split; congruence. Qed.

(** *** The lazy group *)

Lemma lazy_then_sound (close s x rest : string) :
  lazy_then close s = Some (x, rest) ->
  s = x ++ close ++ rest /\ x <> "" /\ one_line x = true /\
  (forall x1 x2, x = x1 ++ x2 -> x1 <> "" -> x2 <> "" ->
                 startsWith (x2 ++ close ++ rest) close = false).
Proof.
  revert x; induction s as [|c r IH]; intros x; simpl; [discriminate|].
  destruct (is_line_terminator c) eqn:Hc; [discriminate|].
  destruct (startsWith r close) eqn:Hp.
  - intros [= <- <-]. repeat split.
    + simpl. f_equal. now apply startsWith_split.
    + discriminate.
    + unfold one_line. simpl. now rewrite Hc.
    + intros [|a x1] [|b x2]; simpl; try congruence.
      intros [= _ H]. destruct x1; discriminate.
  - destruct (lazy_then close r) as [[x' rest']|]; [|discriminate].
    intros [= <- <-]. destruct (IH _ eq_refl) as (Hs & Hne & Hl & Hmin).
    repeat split.
    + simpl. congruence.
    + discriminate.
    + unfold one_line in *. simpl. now rewrite Hc.
    + intros [|a x1] x2; simpl; [congruence|]. intros [= <- Hx] _ Hx2.
      destruct x1 as [|a1 x1].
      * simpl in Hx. subst x2. rewrite <- Hs. exact Hp.
      * apply (Hmin (String a1 x1) x2); congruence.
Qed.

Lemma lazy_then_complete (close x rest : string) :
  x <> "" -> one_line x = true ->
  exists x' rest', lazy_then close (x ++ close ++ rest) = Some (x', rest').
Proof.
  induction x as [|c x IH]; [congruence|]. intros _ Hl.
  unfold one_line in Hl. simpl in Hl. apply andb_prop in Hl as [Hc Hl].
  apply negb_true_iff in Hc. simpl. rewrite Hc.
  destruct (startsWith (x ++ close ++ rest) close) eqn:Hp; [eauto|].
  destruct x as [|d x].
  - simpl in Hp. now rewrite startsWith_app in Hp.
  - destruct IH as (x' & rest' & ->); [discriminate|exact Hl|]. eauto.
Qed.

(** *** One alternative of the pattern *)

Lemma delimited_sound (opening closing s x rest : string) :
  delimited opening closing s = Some (x, rest) ->
  spans opening closing s x rest /\ shortest closing x rest.
Proof.
  unfold delimited. destruct (startsWith s opening) eqn:Hp; [|discriminate].
  intros H. apply lazy_then_sound in H as (Hs & Hne & Hl & Hmin).
  split; [|exact Hmin]. repeat split; auto.
  rewrite (startsWith_split _ _ Hp). congruence.
Qed.

Lemma delimited_complete (opening closing s x rest : string) :
  spans opening closing s x rest -> delimited opening closing s <> None.
Proof.
  intros (-> & Hne & Hl). unfold delimited.
  rewrite startsWith_app, slice_app.
  destruct (lazy_then_complete closing rest Hne Hl) as (x' & rest' & ->).
  discriminate.
Qed.

(** *** The pattern at one position, and its first match *)

Lemma match_here_strong (s x rest : string) :
  match_here s = Some (Strong x, rest) ->
  spans "**" "**" s x rest /\ shortest "**" x rest.
Proof.
  unfold match_here.
  destruct (delimited "**" "**" s) as [[g2 r2]|] eqn:E2.
  - intros [= <- <-]. now apply delimited_sound.
  - destruct (delimited "`" "`" s) as [[g4 r4]|]; discriminate.
Qed.

Lemma match_here_code (s x rest : string) :
  match_here s = Some (Code x, rest) ->
  spans "`" "`" s x rest /\ shortest "`" x rest.
Proof.
  unfold match_here.
  destruct (delimited "**" "**" s) as [[g2 r2]|] eqn:E2; [discriminate|].
  destruct (delimited "`" "`" s) as [[g4 r4]|] eqn:E4; [|discriminate].
  intros [= <- <-]. now apply delimited_sound.
Qed.

Lemma match_here_plain (s x rest : string) :
  match_here s <> Some (Plain x, rest).
Proof.
  unfold match_here.
  destruct (delimited "**" "**" s) as [[g2 r2]|]; [discriminate|].
  destruct (delimited "`" "`" s) as [[g4 r4]|]; discriminate.
Qed.

Lemma match_here_none (s : string) :
  (forall x rest, ~ spans "**" "**" s x rest) ->
  (forall x rest, ~ spans "`" "`" s x rest) ->
  match_here s = None.
Proof.
  intros H2 H4. unfold match_here.
  destruct (delimited "**" "**" s) as [[g2 r2]|] eqn:E2.
  - apply delimited_sound in E2 as [E2 _]. now apply H2 in E2.
  - destruct (delimited "`" "`" s) as [[g4 r4]|] eqn:E4; [|reflexivity].
    apply delimited_sound in E4 as [E4 _]. now apply H4 in E4.
Qed.

Lemma exec_sound (s before : string) (sp : span) (rest : string) :
  exec s = Some (before, sp, rest) ->
  exists tail,
    s = before ++ tail /\ match_here tail = Some (sp, rest) /\
    (forall b1 b2, before = b1 ++ b2 -> b2 <> "" ->
                   match_here (b2 ++ tail) = None).
Proof.
  revert before; induction s as [|c r IH]; intros before.
  - discriminate.
  - cbn [exec]. destruct (match_here (String c r)) as [[sp' rest']|] eqn:E.
    + intros [= <- <- <-]. exists (String c r). repeat split; auto.
      intros b1 b2 Hb. destruct b1; destruct b2; simpl in Hb; congruence.
    + destruct (exec r) as [[[b' sp'] rest']|]; [|discriminate].
      intros [= <- <- <-].
      destruct (IH _ eq_refl) as (tail & Hs & Hm & Hearlier).
      exists tail. repeat split; auto.
      * simpl. congruence.
      * intros [|a b1] b2; simpl.
        -- intros <- _. simpl. rewrite <- Hs. exact E.
        -- intros [= _ Hb] Hne. now apply (Hearlier b1 b2).
Qed.

Lemma exec_none (s : string) :
  exec s = None <-> (forall b t, s = b ++ t -> match_here t = None).
Proof.
  split.
  - induction s as [|c r IH].
    + intros _ [|? ?] [|? ?]; simpl; intros; try discriminate. reflexivity.
    + cbn [exec]. destruct (match_here (String c r)) as [[sp rest]|] eqn:E;
        [discriminate|].
      destruct (exec r) as [[[b' sp'] rest']|]; [discriminate|].
      intros _ [|a b] t; simpl.
      * intros <-. exact E.
      * intros [= _ Hr]. now apply IH in Hr.
  - induction s as [|c r IH]; intros H.
    + reflexivity.
    + cbn [exec]. rewrite (H "" (String c r) eq_refl).
      rewrite IH; [reflexivity|].
      intros b t ->. apply (H (String c b) t). reflexivity.
Qed.

(** A position at which the pattern matches is never passed over: the match
    that [exec] returns starts there or before. *)
Lemma exec_complete (b t : string) :
  match_here t <> None ->
  exists before sp rest,
    exec (b ++ t) = Some (before, sp, rest) /\
    String.length before <= String.length b.
Proof.
  intros Ht. induction b as [|c b IH].
  - simpl append. destruct t as [|c r]; [now contradiction Ht|].
    cbn [exec]. destruct (match_here (String c r)) as [[sp rest]|];
      [|now contradiction Ht].
    exists "", sp, rest. split; [reflexivity|]. simpl. lia.
  - simpl append. cbn [exec].
    destruct (match_here (String c (b ++ t))) as [[sp rest]|].
    + exists "", sp, rest. split; [reflexivity|]. simpl. lia.
    + destruct IH as (before & sp & rest & -> & Hl).
      exists (String c before), sp, rest. split; [reflexivity|]. simpl. lia.
Qed.

(** *** The group of a match is determined *)

Lemma append_cancel (p a b : string) : p ++ a = p ++ b -> a = b.
Proof. induction p as [|c p IH]; simpl; [auto|]. intros [= H]. auto. Qed.

Lemma append_split (a b c d : string) :
  a ++ b = c ++ d ->
  exists e, (c = a ++ e /\ b = e ++ d) \/ (a = c ++ e /\ d = e ++ b).
Proof.
  revert c; induction a as [|x a IH]; intros c H.
  - exists c. left. simpl in *. auto.
  - destruct c as [|y c].
    + exists (String x a). right. simpl in *. auto.
    + simpl in H. injection H as <- H.
      destruct (IH _ H) as [e [[-> ->]|[-> ->]]]; exists e; [left|right];
        simpl; auto.
Qed.

Lemma shortest_unique (closing x rest x' rest' : string) :
  x ++ closing ++ rest = x' ++ closing ++ rest' ->
  x <> "" -> x' <> "" ->
  shortest closing x rest -> shortest closing x' rest' ->
  x = x' /\ rest = rest'.
Proof.
  intros H Hx Hx' Hs Hs'.
  destruct (append_split _ _ _ _ H) as [e [[E1 E2]|[E1 E2]]];
    destruct e as [|c e].
  - rewrite E1 in *. simpl in E2. apply append_cancel in E2.
    split; [|exact E2]. clear. induction x; simpl; congruence.
  - exfalso. specialize (Hs' x (String c e) E1 Hx).
    rewrite <- E2, startsWith_app in Hs'.
    assert (true = false) by (apply Hs'; discriminate). discriminate.
  - rewrite E1 in *. simpl in E2. apply append_cancel in E2.
    split; [|now symmetry]. clear. induction x'; simpl; congruence.
  - exfalso. specialize (Hs x' (String c e) E1 Hx').
    rewrite <- E2, startsWith_app in Hs.
    assert (true = false) by (apply Hs; discriminate). discriminate.
Qed.

Lemma spans_unique (opening closing s x rest x' rest' : string) :
  spans opening closing s x rest -> shortest closing x rest ->
  spans opening closing s x' rest' -> shortest closing x' rest' ->
  x = x' /\ rest = rest'.
Proof.
  intros (Hs & Hx & _) Hm (Hs' & Hx' & _) Hm'.
  rewrite Hs in Hs'. apply append_cancel in Hs'.
  exact (@shortest_unique closing x rest x' rest' Hs' Hx Hx' Hm Hm').
Qed.

(** *** The loop *)

Lemma scan_unfold (s : string) :
  scan s =
  match exec s with
  | None => push_slice s
  | Some (before, sp, rest) => (push_slice before ++ sp :: scan rest)%list
  end.
Proof. funelim (scan s); rewrite e; reflexivity. Qed.

(** What is pushed for a text that is not empty is not empty. *)
Lemma scan_parts (text : string) :
  text <> "" -> renderInline text = Parts (scan text).
Proof.
  intros Hne. unfold renderInline. cbv zeta. rewrite scan_unfold.
  destruct (exec text) as [[[before sp] rest]|].
  - rewrite length_app. simpl List.length.
    replace (0 <? _)%nat with true; [reflexivity|].
    symmetry. apply Nat.ltb_lt. lia.
  - destruct text; [congruence|reflexivity].
Qed.

(** *** The claim on inline spans *)

(** C7. Inline span parsing scans the text from left to right for the bold
    pattern, two asterisks around a group, and the code pattern, backticks
    around a group; the match that starts earliest wins and its group is the
    shortest one that a closing marker follows; wherever a pair of markers
    encloses a non-empty text on one line the pattern matches, so that a
    match is found whenever there is one, starting no later than any place
    where the markers are paired, and its group and the text after it are
    determined; the text before a match and after the last one becomes plain
    spans, and scanning resumes after the match; a text in which no marker
    is closed is rendered as plain text; the parts are what is returned for
    every text that is not empty. *)
Theorem renderInline_spans :
  (forall text before sp rest,
      exec text = Some (before, sp, rest) ->
      scan text = (push_slice before ++ sp :: scan rest)%list /\
      exists tail,
        text = before ++ tail /\ match_here tail = Some (sp, rest) /\
        (forall b1 b2, before = b1 ++ b2 -> b2 <> "" ->
                       match_here (b2 ++ tail) = None)) /\
  (forall s sp rest,
      match_here s = Some (sp, rest) ->
      (exists x, sp = Strong x /\
                 spans "**" "**" s x rest /\ shortest "**" x rest) \/
      (exists x, sp = Code x /\
                 spans "`" "`" s x rest /\ shortest "`" x rest)) /\
  (forall s x rest,
      spans "**" "**" s x rest ->
      exists x' rest', match_here s = Some (Strong x', rest')) /\
  (forall s x rest,
      spans "`" "`" s x rest ->
      exists x' rest', match_here s = Some (Code x', rest')) /\
  (forall text,
      (forall b t x rest, text = b ++ t ->
                          ~ spans "**" "**" t x rest /\ ~ spans "`" "`" t x rest) ->
      scan text = push_slice text /\
      (text <> "" -> renderInline text = Parts [Plain text])) /\
  renderInline "**bold** and `code`"
  = Parts [Strong "bold"; Plain " and "; Code "code"] /\
  renderInline "a stray * and an open **bold and `code"
  = Parts [Plain "a stray * and an open **bold and `code"] /\
  (forall text b t x rest,
      text = b ++ t ->
      spans "**" "**" t x rest \/ spans "`" "`" t x rest ->
      exists before sp rest',
        exec text = Some (before, sp, rest') /\
        String.length before <= String.length b) /\
  (forall opening closing s x rest x' rest',
      spans opening closing s x rest -> shortest closing x rest ->
      spans opening closing s x' rest' -> shortest closing x' rest' ->
      x = x' /\ rest = rest') /\
  (forall text, text <> "" -> renderInline text = Parts (scan text)).
Proof.
  split; [|split; [|split; [|split; [|split; [|split; [|split;
    [|split; [|split]]]]]]]].
  - intros text before sp rest E. split.
    + rewrite scan_unfold, E. reflexivity.
    + now apply exec_sound.
  - intros s [x|x|x] rest E.
    + now apply match_here_plain in E.
    + left. exists x. split; [reflexivity|]. now apply match_here_strong.
    + right. exists x. split; [reflexivity|]. now apply match_here_code.
  - intros s x rest H. apply delimited_complete in H. unfold match_here.
    destruct (delimited "**" "**" s) as [[g2 r2]|]; [eauto|congruence].
  - intros s x rest H. pose proof (delimited_complete H) as Hc.
    destruct H as (-> & _). unfold match_here.
    change (delimited "**" "**" ("`" ++ x ++ "`" ++ rest)) with
      (@None (string * string)).
    destruct (delimited "`" "`" _) as [[g4 r4]|]; [eauto|congruence].
  - intros text H.
    assert (E : exec text = None).
    { apply exec_none. intros b t Hbt. apply match_here_none.
      - intros x rest. exact (proj1 (H b t x rest Hbt)).
      - intros x rest. exact (proj2 (H b t x rest Hbt)). }
    assert (S : scan text = push_slice text) by (rewrite scan_unfold, E; reflexivity).
    split; [exact S|]. intros Hne. unfold renderInline. rewrite S.
    destruct text; [congruence|reflexivity].
  - reflexivity.
  - reflexivity.
  - intros text b t x rest -> H. apply exec_complete.
    destruct H as [H|H]; apply delimited_complete in H; unfold match_here.
    + destruct (delimited "**" "**" t) as [[g2 r2]|]; [discriminate|].
      now contradiction H.
    + destruct (delimited "**" "**" t) as [[g2 r2]|]; [discriminate|].
      destruct (delimited "`" "`" t) as [[g4 r4]|]; [discriminate|].
      now contradiction H.
  - apply spans_unique.
  - apply scan_parts.
Qed.

(** The first match of the example, its plain remainder, and a match that
    is found after two characters of plain text. *)
Lemma renderInline_spans_witness :
  exec "**bold** and `code`" = Some ("", Strong "bold", " and `code`") /\
  scan "**bold** and `code`"
  = (push_slice "" ++ Strong "bold" :: scan " and `code`")%list /\
  scan " and `code`" = [Plain " and "; Code "code"] /\
  spans "**" "**" "**bold**" "bold" "" /\
  exists before sp rest,
    exec "z **bold**" = Some (before, sp, rest) /\
    String.length before <= String.length "z ".
Proof.
  split; [reflexivity|]. split.
  { exact (proj1 (proj1 renderInline_spans "**bold** and `code`"
                    "" (Strong "bold") " and `code`" eq_refl)). }
  split; [reflexivity|].
  assert (H : spans "**" "**" "**bold**" "bold" "").
  { split; [reflexivity|]. split; [discriminate|reflexivity]. }
  split; [exact H|].
  destruct renderInline_spans as (_ & _ & _ & _ & _ & _ & _ & A & _).
  exact (A "z **bold**" "z " "**bold**" "bold" "" eq_refl (or_introl H)).
Defined.

(** *** Trimming and splitting *)

Lemma trimStart_spec (s : string) :
  exists l, s = l ++ trimStart s /\ forall_chars is_white_space l = true /\
            head_is is_white_space (trimStart s) = false.
Proof.
  induction s as [|c r (l & Hs & Hl & Hh)]; simpl.
  - exists "". auto.
  - destruct (is_white_space c) eqn:Hc.
    + exists (String c l). simpl. rewrite Hc, Hl.
      repeat split; simpl; auto. f_equal. exact Hs.
    + exists "". simpl. auto.
Qed.

Lemma trimEnd_spec (s : string) :
  exists r, s = trimEnd s ++ r /\ forall_chars is_white_space r = true /\
            last_is is_white_space (trimEnd s) = false.
Proof.
  induction s as [|c s' (r & Hs & Hr & Hl)]; simpl.
  - exists "". auto.
  - destruct (trimEnd s') as [|d t] eqn:E.
    + simpl in Hs. subst s'. destruct (is_white_space c) eqn:Hc.
      * exists (String c r). simpl. rewrite Hc, Hr. auto.
      * exists r. simpl. rewrite Hc. auto.
    + exists r. repeat split; auto. simpl. f_equal. exact Hs.
Qed.

Lemma trimEnd_head (s : string) :
  head_is is_white_space s = false ->
  head_is is_white_space (trimEnd s) = false.
Proof.
  destruct s as [|c r]; simpl; [reflexivity|]. intros Hc.
  destruct (trimEnd r); simpl; [rewrite Hc|]; simpl; auto.
Qed.

(** [trim] removes the white space at both ends, and nothing else. *)
Lemma trim_spec (line : string) :
  exists l r,
    line = l ++ trim line ++ r /\
    forall_chars is_white_space l = true /\
    forall_chars is_white_space r = true /\
    head_is is_white_space (trim line) = false /\
    last_is is_white_space (trim line) = false.
Proof.
  unfold trim.
  destruct (trimStart_spec line) as (l & Hs & Hl & Hh).
  destruct (trimEnd_spec (trimStart line)) as (r & He & Hr & Hlast).
  exists l, r. repeat split; auto using trimEnd_head.
  rewrite <- He. exact Hs.
Qed.

(** [split_lines] cuts at the line feeds, and nowhere else. *)
Lemma split_lines_join (s : string) :
  join (chr LF) (split_lines s) = s /\
  Forall (fun l => forall_chars (fun c => negb (Ascii.eqb c LF)) l = true)
         (split_lines s) /\
  split_lines s <> [].
Proof.
  induction s as [|c r (Hj & Hf & Hn)]; simpl.
  - repeat split; [repeat constructor|discriminate].
  - destruct (Ascii.eqb c LF) eqn:Hc.
    + apply Ascii.eqb_eq in Hc. subst c. repeat split.
      * destruct (split_lines r) as [|l ls]; [congruence|].
        simpl in *. congruence.
      * constructor; auto.
      * discriminate.
    + destruct (split_lines r) as [|l ls]; [congruence|]. repeat split.
      * destruct ls; simpl in *; congruence.
      * inversion Hf; subst. constructor; auto. simpl. now rewrite Hc.
      * discriminate.
Qed.

(** *** The pattern for numbered lines *)

Lemma split_while_app (p : ascii -> bool) (a b : string) :
  forall_chars p a = true -> head_is p b = false ->
  split_while p (a ++ b) = (a, b).
Proof.
  induction a as [|c a IH]; simpl.
  - intros _ Hb. destruct b; simpl in *; [reflexivity|]. now rewrite Hb.
  - intros H Hb. apply andb_prop in H as [-> Ha]. now rewrite IH.
Qed.

Lemma split_while_spec (p : ascii -> bool) (s a b : string) :
  split_while p s = (a, b) ->
  s = a ++ b /\ forall_chars p a = true /\ head_is p b = false.
Proof.
  revert a b; induction s as [|c r IH]; simpl; intros a b.
  - intros [= <- <-]. auto.
  - destruct (p c) eqn:Hc.
    + destruct (split_while p r) as [a' b']. intros [= <- <-].
      destruct (IH _ _ eq_refl) as (-> & Ha & Hb). simpl. rewrite Hc. auto.
    + intros [= <- <-]. simpl. auto.
Qed.

Lemma first_line_cons (c : ascii) (r : string) :
  is_line_terminator c = false ->
  first_line (String c r) = String c (first_line r).
Proof.
  unfold first_line. simpl. intros ->. simpl.
  destruct (split_while _ r). reflexivity.
Qed.

Lemma numMatch_complete (t ds : string) (w c : ascii) (r : string) :
  numbered_form t ds w c r ->
  numMatch t = Some (ds, first_line (String c r)).
Proof.
  intros (-> & Hne & Hd & Hw & Hc). unfold numMatch.
  change (ds ++ "." ++ String w (String c r))
    with (ds ++ String "." (String w (String c r))).
  rewrite (split_while_app is_digit ds
             (String "." (String w (String c r))) Hd eq_refl).
  apply non_empty_true in Hne. rewrite Hne. simpl. rewrite Hw.
  rewrite (first_line_cons c r Hc). unfold first_line.
  simpl. rewrite Hc. simpl. destruct (split_while _ r). reflexivity.
Qed.

Lemma numMatch_sound (t g1 g2 : string) :
  numMatch t = Some (g1, g2) ->
  exists w c r, numbered_form t g1 w c r /\ g2 = first_line (String c r).
Proof.
  unfold numMatch.
  destruct (split_while is_digit t) as [ds after] eqn:E.
  apply split_while_spec in E as (-> & Hd & _).
  destruct (non_empty ds) eqn:Hne; [|discriminate].
  destruct after as [|dot after]; [discriminate|].
  destruct dot as [[] [] [] [] [] [] [] []]; try discriminate.
  destruct after as [|w after]; [discriminate|].
  destruct (is_white_space w) eqn:Hw; [|discriminate].
  destruct (split_while _ after) as [content tail] eqn:Ec.
  destruct (non_empty content) eqn:Hcn; [|discriminate].
  intros [= <- <-].
  destruct after as [|c r]; [simpl in Ec; inversion Ec; subst; discriminate|].
  simpl in Ec. destruct (is_line_terminator c) eqn:Hc; simpl in Ec.
  - inversion Ec; subst; discriminate.
  - exists w, c, r. split.
    + repeat split; auto. now apply non_empty_true.
    + unfold first_line. simpl. rewrite Hc. simpl.
      destruct (split_while _ r). now inversion Ec.
Qed.

(** *** The claim on line classification *)

Lemma startsWith_other_head (c d : ascii) (s p : string) :
  c <> d -> startsWith (String d s) (String c p) = false.
Proof.
  intros H. unfold startsWith. simpl. destruct (ascii_dec c d); congruence.
Qed.

Lemma digit_is_no_marker (d : ascii) :
  is_digit d = true -> "#"%char <> d /\ "-"%char <> d /\ "*"%char <> d.
Proof. intros H. repeat split; intros <-; discriminate H. Qed.

(** A numbered line is not blank and carries no heading or bullet marker. *)
Lemma numbered_form_head (t ds : string) (w c : ascii) (r : string) :
  numbered_form t ds w c r ->
  exists d rest, t = String d rest /\ is_digit d = true.
Proof.
  intros (-> & Hne & Hd & _). destruct ds as [|d ds]; [congruence|].
  simpl in Hd. apply andb_prop in Hd as [Hd _]. simpl. eauto.
Qed.

(** C6, amended. [MarkdownRenderer] renders each line on its own, from the
    line with its leading and trailing white space trimmed, in this order of
    priority: empty, a blank block; the prefixes of three, two and one hash
    followed by a space, a heading of level 3, 2 and 1 of the remainder; a
    hyphen or an asterisk followed by a space, a bullet item of the remainder
    after the two characters; one or more digits, a dot, one white-space
    character of any kind (a space, a tab, ...) and a remaining text whose
    first character is not a line terminator, a numbered item that shows the
    digits as they are written, with the remaining text up to its first line
    terminator; any other line, a paragraph of the whole trimmed line. *)
Theorem render_line_classification :
  (forall content,
      MarkdownRenderer content = map render_line (split_lines content) /\
      join (chr LF) (split_lines content) = content /\
      Forall (fun l => forall_chars (fun c => negb (Ascii.eqb c LF)) l = true)
             (split_lines content)) /\
  (forall line,
      exists l r,
        line = l ++ trim line ++ r /\
        forall_chars is_white_space l = true /\
        forall_chars is_white_space r = true /\
        head_is is_white_space (trim line) = false /\
        last_is is_white_space (trim line) = false) /\
  (forall line,
      (trim line = "" -> render_line line = Blank) /\
      (forall r, trim line = "### " ++ r ->
                 render_line line = Heading 3 (renderInline r)) /\
      (forall r, trim line = "## " ++ r ->
                 render_line line = Heading 2 (renderInline r)) /\
      (forall r, trim line = "# " ++ r ->
                 render_line line = Heading 1 (renderInline r)) /\
      (forall r, trim line = "- " ++ r \/ trim line = "* " ++ r ->
                 render_line line = BulletItem (renderInline r)) /\
      (forall ds w c r,
          numbered_form (trim line) ds w c r ->
          render_line line
          = NumberedItem ds (renderInline (first_line (String c r))) /\
          displayed_index (render_line line) = Some (ds ++ ".")) /\
      (trim line <> "" ->
       startsWith (trim line) "### " = false ->
       startsWith (trim line) "## " = false ->
       startsWith (trim line) "# " = false ->
       startsWith (trim line) "- " = false ->
       startsWith (trim line) "* " = false ->
       (forall ds w c r, ~ numbered_form (trim line) ds w c r) ->
       render_line line = Paragraph (renderInline (trim line)))) /\
  map displayed_index
    (MarkdownRenderer ("3. third" ++ chr LF ++ "3. third again"))
  = [Some "3."; Some "3."].
Proof.
  split; [|split; [exact trim_spec|split; [|reflexivity]]].
  { intros content. split; [reflexivity|].
    destruct (split_lines_join content) as (Hj & Hf & _). auto. }
  intros line. unfold render_line. repeat split.
  - intros ->. reflexivity.
  - intros r ->. destruct r; reflexivity.
  - intros r ->. destruct r; reflexivity.
  - intros r ->. destruct r; reflexivity.
  - intros r [-> | ->]; destruct r; reflexivity.
  - destruct (numbered_form_head H) as (d & rest & Ht & Hd).
    destruct (digit_is_no_marker _ Hd) as (H1 & H2 & H3).
    rewrite (numMatch_complete H), Ht. simpl String.eqb.
    rewrite !startsWith_other_head by assumption. reflexivity.
  - destruct (numbered_form_head H) as (d & rest & Ht & Hd).
    destruct (digit_is_no_marker _ Hd) as (H1 & H2 & H3).
    rewrite (numMatch_complete H), Ht. simpl String.eqb.
    rewrite !startsWith_other_head by assumption. reflexivity.
  - intros Hne H3 H2 H1 Hh Ha Hnum.
    apply String.eqb_neq in Hne. rewrite Hne, H3, H2, H1, Hh, Ha. simpl.
    destruct (numMatch (trim line)) as [[g1 g2]|] eqn:E; [|reflexivity].
    apply numMatch_sound in E as (w & c & r & E & _). now apply Hnum in E.
Qed.

(** A numbered line with white space around it, and a plain line. *)
Lemma render_line_classification_witness :
  numbered_form (trim "  3. third ") "3" " " "t" "hird" /\
  render_line "  3. third " = NumberedItem "3" (Parts [Plain "third"]) /\
  displayed_index (render_line "  3. third ") = Some "3." /\
  trim " ###" = "###" /\
  render_line " ###" = Paragraph (Parts [Plain "###"]).
Proof.
  assert (N : numbered_form (trim "  3. third ") "3" " " "t" "hird")
    by (repeat split; discriminate).
  destruct (proj1 (proj2 (proj2 render_line_classification)) "  3. third ")
    as (_ & _ & _ & _ & _ & Hnum & _).
  destruct (Hnum _ _ _ _ N) as [H1 H2].
  split; [exact N|]. split; [exact H1|]. split; [exact H2|].
  split; [reflexivity|].
  destruct (proj1 (proj2 (proj2 render_line_classification)) " ###")
    as (_ & _ & _ & _ & _ & _ & Hp).
  apply Hp; try reflexivity; try discriminate.
  intros ds w c r N'. destruct (numbered_form_head N') as (d & rest & Ht & Hd).
  injection Ht as <- _. discriminate Hd.
Defined.

(** C6 as stated fails: a digit, a dot, a tab and a text is no line of
    digits, a dot, a space and a text, nor a blank line, a heading or a
    bullet, and it is rendered as a numbered item, not as a paragraph. *)
Lemma numbered_as_stated_fails :
  let line := "1." ++ chr TAB ++ "x" in
  trim line = line /\
  line <> "" /\
  startsWith line "### " = false /\
  startsWith line "## " = false /\
  startsWith line "# " = false /\
  startsWith line "- " = false /\
  startsWith line "* " = false /\
  (forall ds rest, line <> ds ++ ". " ++ rest) /\
  render_line line = NumberedItem "1" (Parts [Plain "x"]) /\
  render_line line <> Paragraph (renderInline (trim line)).
Proof.
  cbv zeta. repeat split; try discriminate.
  intros ds rest H.
  do 5 (destruct ds as [|? ds]; simpl in H; try discriminate H).
Qed.

End MarkupFacts.

(** ** The send loop *)

Module ChatFacts.

Import Str JS Normalizer NormalizerFacts Chat.

Section WithHost.

Context {host : Host}.

#[local] Abbreviation val := (value number).

Lemma begin_loading (text ts : string) (st st' : state) (c : call) :
  sendMessage_begin text ts st = Some (st', c) ->
  isLoading st = false /\ isLoading st' = true.
Proof.
  unfold sendMessage_begin.
  destruct (negb (non_empty (trim text))); simpl; [discriminate|].
  destruct (isLoading st); simpl; [discriminate|].
  intros [= <- _]. auto.
Qed.

Lemma begin_messages (text ts : string) (st st' : state) (c : call) :
  sendMessage_begin text ts st = Some (st', c) ->
  exists u,
    messages st' = (messages st ++ [u])%list /\
    role u = user /\ content u = VStr (trim text) /\ isError u = None /\
    c = {| call_message := trim text; call_agent := AGENT_ID |}.
Proof.
  unfold sendMessage_begin.
  destruct (negb (non_empty (trim text)) || isLoading st); [discriminate|].
  intros [= <- <-]. eexists. simpl. repeat split.
Qed.

Lemma step_one_in_flight (w : world) (e : event) :
  one_in_flight w -> one_in_flight (step w e).
Proof.
  intros Hw. destruct e as [text ts|s ts ts'|v| |]; simpl.
  - destruct (sendMessage_begin text ts (page w)) as [[st c]|] eqn:E; [|exact Hw].
    apply begin_loading in E as [Hf Ht].
    destruct Hw as [Hw|[_ Hw]]; [|congruence].
    right. simpl. rewrite Hw. split; [exists c; reflexivity|exact Ht].
  - destruct (in_flight w) as [|c rest] eqn:E; [exact Hw|].
    destruct Hw as [Hw|[[c' Hc] _]]; [congruence|].
    left. simpl. congruence.
  - destruct Hw as [Hw|[Hc Hl]]; [left; exact Hw|right].
    split; [exact Hc|exact Hl].
  - destruct Hw as [Hw|[Hc Hl]]; [left; exact Hw|right].
    split; [exact Hc|]. simpl. unfold handleNewChat.
    destruct (0 <? List.length (messages (page w)))%nat; exact Hl.
  - destruct Hw as [Hw|[Hc Hl]]; [left; exact Hw|right].
    split; [exact Hc|exact Hl].
Qed.

Lemma fold_one_in_flight (es : list event) (w : world) :
  one_in_flight w -> one_in_flight (fold_left step es w).
Proof.
  revert w; induction es as [|e es IH]; intros w Hw; simpl; [exact Hw|].
  apply IH, step_one_in_flight, Hw.
Qed.

Lemma run_one_in_flight (es : list event) : one_in_flight (run es).
Proof. apply fold_one_in_flight. left. reflexivity. Qed.

(** C8. While the loading flag is set, [sendMessage] returns at once: it
    appends nothing to the transcript and issues no call.  So along every run
    of the page at most one call to the agent is in flight, the page is
    loading while one is, and a submission made then leaves the page, its
    transcript included, and the calls in flight as they were. *)
Theorem submit_while_loading_is_noop :
  (forall st text ts,
      isLoading st = true -> sendMessage_begin text ts st = None) /\
  (forall es,
      (List.length (in_flight (run es)) <= 1)%nat /\
      (in_flight (run es) <> [] -> isLoading (page (run es)) = true)) /\
  (forall es text ts,
      in_flight (run es) <> [] ->
      step (run es) (Submit text ts) = run es /\
      messages (page (step (run es) (Submit text ts)))
      = messages (page (run es))).
Proof.
  assert (H1 : forall st text ts,
             isLoading st = true -> sendMessage_begin text ts st = None).
  { intros st text ts Hl. unfold sendMessage_begin. rewrite Hl.
    now rewrite orb_true_r. }
  assert (H2 : forall es,
             in_flight (run es) <> [] -> isLoading (page (run es)) = true).
  { intros es Hne. destruct (run_one_in_flight es) as [H|[_ H]]; congruence. }
  split; [exact H1|]. split.
  - intros es. split; [|apply H2].
    destruct (run_one_in_flight es) as [->|[[c ->] _]]; simpl; lia.
  - intros es text ts Hne. simpl. rewrite (H1 _ text ts (H2 es Hne)). auto.
Qed.

(** What [sendMessage] does once the call has settled. *)
Lemma resume_success (result : val) (ts ts' : string) (st : state) :
  truthy (result ?. "success") = true ->
  exists parsed m,
    parseAgentResponse (result ?. "response" ?. "result") = Return parsed /\
    messages (sendMessage_resume (Fulfilled result) ts ts' st)
    = (messages st ++ [m])%list /\
    role m = assistant /\ isError m = None /\
    content m = or_else (text parsed) (VStr no_response_text) /\
    followUpSuggestions m = Some (suggestions parsed).
Proof.
  intros Hs.
  destruct (parseAgentResponse_returns (result ?. "response" ?. "result"))
    as [parsed Hp].
  exists parsed. unfold sendMessage_resume, on_result. rewrite Hs, Hp.
  eexists. simpl. repeat split.
Qed.

Lemma resume_failure (result : val) (ts ts' : string) (st : state) :
  truthy (result ?. "success") = false ->
  exists m,
    messages (sendMessage_resume (Fulfilled result) ts ts' st)
    = (messages st ++ [m])%list /\
    role m = assistant /\ isError m = Some true /\
    content m = failure_text result.
Proof.
  intros Hs. unfold sendMessage_resume, on_result. rewrite Hs.
  eexists. simpl. repeat split.
Qed.

Lemma resume_rejected (ts ts' : string) (st : state) :
  exists m,
    messages (sendMessage_resume Rejected ts ts' st)
    = (messages st ++ [m])%list /\
    role m = assistant /\ isError m = Some true /\
    content m = VStr network_error_text.
Proof. eexists. simpl. repeat split. Qed.

Lemma or_else_truthy (a b : val) : truthy a = true -> or_else a b = a.
Proof. unfold or_else. intros ->. reflexivity. Qed.

Lemma or_else_falsy (a b : val) : truthy a = false -> or_else a b = b.
Proof. unfold or_else. intros ->. reflexivity. Qed.

(** C9, amended. Once the call of a turn has settled, [sendMessage] appends
    exactly one entry to the transcript, an assistant entry: when the result
    reports success, a message without error flag whose content is the
    normalised text, or the fixed placeholder when that text is empty; when
    it does not, an error-flagged message whose content is the [error] field,
    else the [message] of the response, else a fixed text; when the call
    throws, an error-flagged message with the fixed network-error text.  A
    turn that begins thus adds its user entry and then one assistant entry. *)
Theorem turn_appends_one_assistant_entry :
  (forall (s : settlement) (ts ts' : string) (st : state),
      exists m,
        messages (sendMessage_resume s ts ts' st) = (messages st ++ [m])%list /\
        role m = assistant /\
        (forall result,
            s = Fulfilled result -> truthy (result ?. "success") = true ->
            isError m = None /\
            exists parsed,
              parseAgentResponse (result ?. "response" ?. "result")
              = Return parsed /\
              (truthy (text parsed) = true -> content m = text parsed) /\
              (truthy (text parsed) = false ->
               content m = VStr no_response_text)) /\
        (forall result,
            s = Fulfilled result -> truthy (result ?. "success") = false ->
            isError m = Some true /\
            (truthy (result ?. "error") = true ->
             content m = result ?. "error") /\
            (truthy (result ?. "error") = false ->
             truthy (result ?. "response" ?. "message") = true ->
             content m = result ?. "response" ?. "message") /\
            (truthy (result ?. "error") = false ->
             truthy (result ?. "response" ?. "message") = false ->
             content m = VStr "Something went wrong. Please try again.")) /\
        (s = Rejected ->
         isError m = Some true /\ content m = VStr network_error_text)) /\
  (forall (text ts : string) (st st1 : state) (c : call)
          (s : settlement) (ts1 ts2 : string),
      sendMessage_begin text ts st = Some (st1, c) ->
      exists u m,
        messages (sendMessage_resume s ts1 ts2 st1)
        = (messages st ++ [u; m])%list /\
        role u = user /\ role m = assistant).
Proof.
  assert (A : forall (s : settlement) (ts ts' : string) (st : state),
             exists m,
               messages (sendMessage_resume s ts ts' st)
               = (messages st ++ [m])%list /\ role m = assistant /\
               match s with
               | Fulfilled result =>
                   if truthy (result ?. "success") then
                     isError m = None /\
                     exists parsed,
                       parseAgentResponse (result ?. "response" ?. "result")
                       = Return parsed /\
                       content m = or_else (text parsed) (VStr no_response_text)
                   else isError m = Some true /\ content m = failure_text result
               | Rejected =>
                   isError m = Some true /\ content m = VStr network_error_text
               end).
  { intros [result|] ts ts' st.
    - destruct (truthy (result ?. "success")) eqn:Hs.
      + destruct (resume_success result ts ts' st Hs)
          as (parsed & m & Hp & Hm & Hr & He & Hc & _).
        exists m. eauto 10.
      + destruct (resume_failure result ts ts' st Hs) as (m & Hm & Hr & He & Hc).
        exists m. auto.
    - destruct (resume_rejected ts ts' st) as (m & Hm & Hr & He & Hc).
      exists m. auto. }
  split.
  - intros s ts ts' st. destruct (A s ts ts' st) as (m & Hm & Hr & Hcase).
    exists m. split; [exact Hm|]. split; [exact Hr|]. split; [|split].
    + intros result -> Hs. rewrite Hs in Hcase.
      destruct Hcase as (He & parsed & Hp & Hc).
      split; [exact He|]. exists parsed. split; [exact Hp|].
      split; intros Ht; rewrite Hc;
        [now apply or_else_truthy | now apply or_else_falsy].
    + intros result -> Hs. rewrite Hs in Hcase. destruct Hcase as [He Hc].
      split; [exact He|]. rewrite Hc. unfold failure_text. split; [|split].
      * intros H1. now apply or_else_truthy.
      * intros H1 H2. rewrite or_else_falsy by assumption.
        now apply or_else_truthy.
      * intros H1 H2. now rewrite !or_else_falsy by assumption.
    + intros ->. exact Hcase.
  - intros text ts st st1 c s ts1 ts2 Hb.
    destruct (begin_messages _ _ _ Hb) as (u & Hu & Hru & _).
    destruct (A s ts1 ts2 st1) as (m & Hm & Hr & _).
    exists u, m. rewrite Hm, Hu, <- app_assoc. auto.
Qed.

(** C10. When the call succeeds and the text extracted by the normaliser is
    the empty string, the content of the assistant message appended is the
    fixed placeholder; so a successful turn never stores an assistant entry
    whose content is the empty string. *)
Theorem empty_text_gets_placeholder :
  (forall (result : val) (ts ts' : string) (st : state) (parsed : locals),
      truthy (result ?. "success") = true ->
      parseAgentResponse (result ?. "response" ?. "result") = Return parsed ->
      text parsed = VStr "" ->
      exists m,
        messages (sendMessage_resume (Fulfilled result) ts ts' st)
        = (messages st ++ [m])%list /\
        role m = assistant /\ isError m = None /\
        content m = VStr no_response_text) /\
  (forall (result : val) (ts ts' : string) (st : state),
      truthy (result ?. "success") = true ->
      exists m,
        messages (sendMessage_resume (Fulfilled result) ts ts' st)
        = (messages st ++ [m])%list /\
        content m <> VStr "").
Proof.
  split.
  - intros result ts ts' st parsed Hs Hp Ht.
    destruct (resume_success result ts ts' st Hs)
      as (parsed' & m & Hp' & Hm & Hr & He & Hc & _).
    rewrite Hp in Hp'. injection Hp' as <-.
    exists m. repeat split; auto. rewrite Hc, Ht. reflexivity.
  - intros result ts ts' st Hs.
    destruct (resume_success result ts ts' st Hs)
      as (parsed & m & _ & Hm & _ & _ & Hc & _).
    exists m. split; [exact Hm|]. rewrite Hc. unfold or_else.
    destruct (truthy (text parsed)) eqn:Ht; [|discriminate].
    intros E. rewrite E in Ht. discriminate.
Qed.

End WithHost.

End ChatFacts.

(** *** The send loop on concrete turns *)

Module ChatRuns.

Import Str JS Normalizer Chat ChatFacts.

#[local] Existing Instance Sample.host.

(** A second submission while the first call is in flight. *)
Lemma submit_while_loading_is_noop_witness :
  in_flight (run [Submit "Hello" "2:30 PM"])
  = [{| call_message := "Hello"; call_agent := AGENT_ID |}] /\
  isLoading (page (run [Submit "Hello" "2:30 PM"])) = true /\
  sendMessage_begin "Again" "2:31 PM" (page (run [Submit "Hello" "2:30 PM"]))
  = None /\
  step (run [Submit "Hello" "2:30 PM"]) (Submit "Again" "2:31 PM")
  = run [Submit "Hello" "2:30 PM"].
Proof.
  split; [reflexivity|].
  assert (Hne : in_flight (run [Submit "Hello" "2:30 PM"]) <> [])
    by discriminate.
  destruct submit_while_loading_is_noop as (H1 & H2 & H3).
  pose proof (proj2 (H2 [Submit "Hello" "2:30 PM"]) Hne) as Hl.
  split; [exact Hl|]. split.
  - exact (H1 _ "Again" "2:31 PM" Hl).
  - exact (proj1 (H3 [Submit "Hello" "2:30 PM"] "Again" "2:31 PM" Hne)).
Defined.

(** A turn from the empty transcript that the agent answers, and a call
    that reports a failure. *)
Lemma turn_appends_one_assistant_entry_witness :
  (exists st1 c,
      sendMessage_begin " Hello " "2:30 PM" initial = Some (st1, c) /\
      exists u m,
        messages (sendMessage_resume (Fulfilled Sample.greeting_ok)
                    "2:31 PM" "2:31 PM" st1) = [u; m] /\
        role u = user /\ role m = assistant) /\
  (exists m,
      messages (sendMessage_resume (Fulfilled Sample.failed)
                  "2:31 PM" "2:31 PM" initial) = [m] /\
      isError m = Some true /\ content m = VStr "Agent is busy").
Proof.
  split.
  - eexists. eexists. split; [reflexivity|].
    exact (proj2 turn_appends_one_assistant_entry
             " Hello " "2:30 PM" initial _ _
             (Fulfilled Sample.greeting_ok) "2:31 PM" "2:31 PM" eq_refl).
  - destruct (proj1 turn_appends_one_assistant_entry
                (Fulfilled Sample.failed) "2:31 PM" "2:31 PM" initial)
      as (m & Hm & _ & _ & Hf & _).
    destruct (Hf _ eq_refl eq_refl) as (He & _ & Hmsg & _).
    exists m. split; [exact Hm|]. split; [exact He|].
    apply Hmsg; reflexivity.
Defined.

(** C9 as stated fails: the call succeeds, the normalised text is the empty
    string, and the content of the message is the placeholder, not that
    text. *)
Lemma success_content_as_stated_fails :
  truthy (Sample.empty_ok ?. "success") = true /\
  parseAgentResponse (Sample.empty_ok ?. "response" ?. "result")
  = Return {| text := VStr ""; suggestions := VArr [] |} /\
  exists m,
    messages (sendMessage_resume (Fulfilled Sample.empty_ok)
                "2:31 PM" "2:31 PM" initial) = [m] /\
    content m = VStr no_response_text /\
    content m <> VStr "".
Proof.
  split; [reflexivity|]. split; [reflexivity|].
  eexists. split; [reflexivity|]. split; [reflexivity|discriminate].
Qed.

(** A success whose payload is the empty string. *)
Lemma empty_text_gets_placeholder_witness :
  truthy (Sample.empty_ok ?. "success") = true /\
  parseAgentResponse (Sample.empty_ok ?. "response" ?. "result")
  = Return {| text := VStr ""; suggestions := VArr [] |} /\
  exists m,
    messages (sendMessage_resume (Fulfilled Sample.empty_ok)
                "2:31 PM" "2:31 PM" initial) = [m] /\
    role m = assistant /\ isError m = None /\
    content m = VStr no_response_text.
Proof.
  split; [reflexivity|]. split; [reflexivity|].
  exact (proj1 empty_text_gets_placeholder Sample.empty_ok
           "2:31 PM" "2:31 PM" initial
           {| text := VStr ""; suggestions := VArr [] |}
           eq_refl eq_refl eq_refl).
Defined.

End ChatRuns.

(** * Further properties of the page *)

(** ** More on the response normaliser *)

Module NormalizerMore.

Import Str JS Normalizer Shapes NormalizerFacts.

Section WithHost.

Context {host : Host}.

#[local] Abbreviation val := (value number).

(** The text of the record is a string and its suggestions are an array,
    whatever the elements of that array are. *)
Definition string_and_array (r : locals) : Prop :=
  (exists t, text r = VStr t) /\ (exists l, suggestions r = VArr l).

(** What the outer [catch] needs to fire: the coercion of the field that the
    function selected throws. *)
Definition selected_field_throws (payload : val) : Prop :=
  (truthy (payload ?. "data" ?. "response") = true /\
   ToString (payload ?. "data" ?. "response") = Thrown) \/
  (truthy (payload ?. "data" ?. "response") = false /\
   truthy (payload ?. "response") && typeof_string (payload ?. "response")
   = false /\
   typeof_string payload = false /\
   exists x, first_field truthy payload fallback_fields = Some x /\
             ToString x = Thrown).

(** Where suggestions can come from: nowhere, or an array found under
    [follow_up_suggestions] in the payload, in its [data], or in the [data]
    of the value a string payload parses to. *)
Definition suggestions_from (payload sg : val) : Prop :=
  sg = VArr [] \/
  (Array_isArray sg = true /\
   (sg = payload ?. "data" ?. "follow_up_suggestions" \/
    sg = payload ?. "follow_up_suggestions" \/
    exists s p,
      payload = VStr s /\ JSON_parse s = Some p /\
      sg = p ?. "data" ?. "follow_up_suggestions")).

Lemma picked_is_array (f : val) :
  exists l, (if Array_isArray f then f else VArr []) = VArr l.
Proof. destruct f; simpl; eauto. Qed.

Lemma string_of_typeof (v : val) :
  typeof_string v = true -> exists s, v = VStr s.
Proof. destruct v; simpl; try discriminate; eauto. Qed.

Lemma primitive_coerces (v : val) :
  typeof_object v = false -> exists t, ToString v = Ok t.
Proof. destruct v as [| |[]| | | |]; simpl; try discriminate; eauto. Qed.

(** How the guarded block completes on a payload that is not a string. *)
Lemma try_on_non_string (v : val) :
  typeof_string v = false ->
  match parseAgentResponse_try v entry with
  | Normal _ r | Return r => string_and_array r
  | Throw env => env = entry /\ selected_field_throws v
  end.
Proof.
  intros Hs. destruct (truthy (v ?. "data" ?. "response")) eqn:Hn.
  - rewrite (try_nested _ _ Hn), (nested_block_run _ _ Hn).
    destruct (ToString _) as [t|] eqn:Ht.
    + split; simpl; [eauto|apply picked_is_array].
    + split; [reflexivity|left; auto].
  - rewrite (try_past_nested _ _ Hn).
    destruct (truthy (v ?. "response") && typeof_string (v ?. "response"))
      eqn:Hf.
    + apply andb_prop in Hf as [Ht Hty].
      rewrite (flat_block_run _ _ Ht). split; simpl.
      * now apply string_of_typeof.
      * apply picked_is_array.
    + unfold bind at 1. rewrite Hs. unfold when, ret.
      destruct (first_field truthy v fallback_fields) as [x|] eqn:Hx.
      * rewrite (fallback_chain_field _ _ Hx).
        destruct (ToString x) as [t|] eqn:Ht.
        -- split; simpl; eauto.
        -- split; [reflexivity|right; eauto 10].
      * rewrite (fallback_chain_none _ _ Hx).
        destruct (is_nullish v) eqn:Hv; [split; simpl; eauto|].
        destruct (typeof_object v) eqn:Ho.
        -- destruct (serialize_object "" _ Ho Hv) as [s Hser].
           unfold JSON_stringify. rewrite Hser. split; simpl; eauto.
        -- destruct (primitive_coerces _ Ho) as [t Ht].
           unfold bind, String_, lift, ret, set_text. unfold bind. rewrite Ht.
           split; simpl; eauto.
Qed.

(** How the guarded block completes on a payload that is a string. *)
Lemma try_on_string (s : string) :
  match parseAgentResponse_try (VStr s) entry with
  | Normal _ r | Return r =>
      string_and_array r /\
      (text r = VStr s \/
       exists p x t,
         JSON_parse s = Some p /\
         (x = p ?. "data" ?. "response" \/ x = p ?. "response") /\
         truthy x = true /\ ToString x = Ok t /\ text r = VStr t)
  | Throw _ => False
  end.
Proof.
  rewrite try_string. destruct (JSON_parse s) as [p|] eqn:Hp.
  - rewrite parsed_block_run.
    destruct (truthy (p ?. "data" ?. "response")) eqn:Hn.
    + rewrite (nested_block_run _ _ Hn).
      destruct (ToString _) as [t|] eqn:Ht.
      * split; [split; simpl; [eauto|apply picked_is_array]|].
        right. exists p, (p ?. "data" ?. "response"), t. auto 10.
      * split; [split; simpl; eauto|left; reflexivity].
    + destruct (truthy (p ?. "response")) eqn:Hr.
      * destruct (ToString _) as [t|] eqn:Ht.
        -- split; [split; simpl; eauto|].
           right. exists p, (p ?. "response"), t. auto 10.
        -- split; [split; simpl; eauto|left; reflexivity].
      * split; [split; simpl; eauto|left; reflexivity].
  - split; [split; simpl; eauto|left; reflexivity].
Qed.

Lemma parseAgentResponse_typed (payload : val) :
  exists t l,
    parseAgentResponse payload
    = Return {| text := VStr t; suggestions := VArr l |}.
Proof.
  assert (H : exists r, parseAgentResponse payload = Return r /\ string_and_array r).
  { destruct (typeof_string payload) eqn:Hs.
    - apply string_of_typeof in Hs as [s ->].
      pose proof (try_on_string s) as H.
      destruct (parseAgentResponse_try (VStr s) entry) as [[] r|r|env] eqn:E.
      + exists r. split; [now apply parseAgentResponse_of_normal|apply H].
      + exists r. split; [now apply parseAgentResponse_of_return|apply H].
      + contradiction.
    - pose proof (try_on_non_string _ Hs) as H.
      destruct (parseAgentResponse_try payload entry) as [[] r|r|env] eqn:E.
      + exists r. split; [now apply parseAgentResponse_of_normal|exact H].
      + exists r. split; [now apply parseAgentResponse_of_return|exact H].
      + destruct H as [-> _].
        eexists. split; [apply parseAgentResponse_of_throw; exact E|].
        split; simpl; eauto. }
  destruct H as ([t l] & Hr & (t' & Ht) & (l' & Hl)). simpl in *. subst.
  eauto.
Qed.

(** Whatever the payload, the text returned is a string and the suggestions
    returned are an array.  The elements of the array are not looked at: any
    list of values stored under [data.follow_up_suggestions] beside a
    response that is a non-empty string comes back as it is, so the
    suggestions need not be strings. *)
Theorem parseAgentResponse_returns_string_and_array :
  (forall payload : val,
      exists t l,
        parseAgentResponse payload
        = Return {| text := VStr t; suggestions := VArr l |}) /\
  (forall (t : string) (l : list val),
      t <> "" ->
      parseAgentResponse
        (VObj [("data", VObj [("response", VStr t);
                              ("follow_up_suggestions", VArr l)])])
      = Return {| text := VStr t; suggestions := VArr l |}).
Proof.
  split; [exact parseAgentResponse_typed|].
  intros t l Hne. apply parseAgentResponse_of_return.
  assert (Ht : truthy
                 (VObj [("data", VObj [("response", VStr t);
                                       ("follow_up_suggestions", VArr l)])]
                    ?. "data" ?. "response") = true).
  { destruct t; [congruence|reflexivity]. }
  rewrite (try_nested _ _ Ht), (nested_block_run _ _ Ht). reflexivity.
Qed.

(** A payload that is a string never reaches the outer [catch]: the inner
    one absorbs every failure, so the text is the string itself or the
    coercion of a truthy [data.response] or [response] of the parsed value,
    and never the fixed text of the outer handler put there by a throw. *)
Theorem string_payload_stays_inside (s : string) :
  (forall env, parseAgentResponse_try (VStr s) entry <> Throw env) /\
  exists r,
    parseAgentResponse (VStr s) = Return r /\
    (text r = VStr s \/
     exists p x t,
       JSON_parse s = Some p /\
       (x = p ?. "data" ?. "response" \/ x = p ?. "response") /\
       truthy x = true /\ ToString x = Ok t /\ text r = VStr t).
Proof.
  pose proof (try_on_string s) as H.
  destruct (parseAgentResponse_try (VStr s) entry) as [[] r|r|env] eqn:E.
  - split; [discriminate|]. exists r.
    split; [now apply parseAgentResponse_of_normal|apply H].
  - split; [discriminate|]. exists r.
    split; [now apply parseAgentResponse_of_return|apply H].
  - contradiction.
Qed.

(** The outer [catch] fires exactly when the string coercion of the field
    the function selected throws: the truthy [data.response], or else the
    first truthy field of the fallback on a payload that is neither flat nor
    a string.  Then, and only then, the guarded block is left by a throw and
    the result is the fixed text with no suggestions. *)
Theorem outer_catch_iff (payload : val) :
  ((exists env, parseAgentResponse_try payload entry = Throw env) <->
   selected_field_throws payload) /\
  (selected_field_throws payload ->
   parseAgentResponse payload
   = Return {| text := VStr "Unable to parse response.";
               suggestions := VArr [] |}).
Proof.
  assert (B : selected_field_throws payload ->
              parseAgentResponse_try payload entry = Throw entry).
  { intros [[Hn Ht]|(Hn & Hf & Hs & x & Hx & Ht)].
    - now rewrite (try_nested _ _ Hn), (nested_block_run _ _ Hn), Ht.
    - now rewrite (try_fallback _ _ Hn Hf Hs), (fallback_chain_field _ _ Hx), Ht. }
  split; [split|].
  - intros [env E]. destruct (typeof_string payload) eqn:Hs.
    + apply string_of_typeof in Hs as [s ->].
      pose proof (try_on_string s) as H. now rewrite E in H.
    + pose proof (try_on_non_string _ Hs) as H. rewrite E in H. apply H.
  - intros H. exists entry. now apply B.
  - intros H. apply B in H. now apply parseAgentResponse_of_throw in H.
Qed.

(** Payloads that are neither objects nor strings: a boolean and a number
    are shown by their string coercion, zero and [false] included; an array,
    whatever it holds, is shown by its indented serialisation; none of them
    gives suggestions. *)
Theorem primitive_and_array_payloads :
  (forall b : bool,
      parseAgentResponse (VBool b)
      = Return {| text := VStr (if b then "true" else "false");
                  suggestions := VArr [] |}) /\
  (forall n : number,
      parseAgentResponse (VNum n)
      = Return {| text := VStr (Number_toString n); suggestions := VArr [] |}) /\
  (forall l : list val,
      exists s,
        SerializeJSONProperty "" (VArr l) = Some s /\
        parseAgentResponse (VArr l)
        = Return {| text := VStr s; suggestions := VArr [] |}).
Proof.
  split; [|split].
  - intros b. apply parseAgentResponse_of_normal.
    rewrite try_fallback by reflexivity.
    rewrite fallback_chain_none by reflexivity. destruct b; reflexivity.
  - intros n. apply parseAgentResponse_of_normal.
    rewrite try_fallback by reflexivity.
    rewrite fallback_chain_none by reflexivity. reflexivity.
  - intros l. destruct (serialize_object "" (VArr l) eq_refl eq_refl) as [s Hs].
    exists s. split; [exact Hs|]. apply parseAgentResponse_of_normal.
    rewrite try_fallback by reflexivity.
    rewrite fallback_chain_none by reflexivity. simpl is_nullish.
    simpl typeof_object. cbv iota. unfold JSON_stringify. rewrite Hs.
    reflexivity.
Qed.

Lemma picked_or_empty (f : val) :
  (if Array_isArray f then f else VArr []) = VArr [] \/
  (Array_isArray (if Array_isArray f then f else VArr []) = true /\
   (if Array_isArray f then f else VArr []) = f).
Proof. destruct (Array_isArray f) eqn:E; auto. Qed.

Lemma try_suggestions (v : val) :
  match parseAgentResponse_try v entry with
  | Normal _ r | Return r => suggestions_from v (suggestions r)
  | Throw env => env = entry
  end.
Proof.
  destruct (typeof_string v) eqn:Hs.
  - apply string_of_typeof in Hs as [s ->]. rewrite try_string.
    destruct (JSON_parse s) as [p|] eqn:Hp; [|now left].
    rewrite parsed_block_run.
    destruct (truthy (p ?. "data" ?. "response")) eqn:Hn.
    + rewrite (nested_block_run _ _ Hn).
      destruct (ToString _); [|now left]. simpl.
      destruct (picked_or_empty (p ?. "data" ?. "follow_up_suggestions"))
        as [E|[E1 E2]]; [now left|right].
      split; [exact E1|]. right. right. exists s, p. auto.
    + destruct (truthy (p ?. "response")); [|now left].
      destruct (ToString _); now left.
  - destruct (truthy (v ?. "data" ?. "response")) eqn:Hn.
    + rewrite (try_nested _ _ Hn), (nested_block_run _ _ Hn).
      destruct (ToString _); [|reflexivity]. simpl.
      destruct (picked_or_empty (v ?. "data" ?. "follow_up_suggestions"))
        as [E|[E1 E2]]; [now left|right].
      split; [exact E1|]. now left.
    + rewrite (try_past_nested _ _ Hn).
      destruct (truthy (v ?. "response") && typeof_string (v ?. "response"))
        eqn:Hf.
      * apply andb_prop in Hf as [Ht _]. rewrite (flat_block_run _ _ Ht).
        simpl.
        destruct (picked_or_empty (v ?. "follow_up_suggestions"))
          as [E|[E1 E2]]; [now left|right].
        split; [exact E1|]. right. now left.
      * unfold bind at 1. rewrite Hs. unfold when, ret.
        destruct (first_field truthy v fallback_fields) as [x|] eqn:Hx.
        -- rewrite (fallback_chain_field _ _ Hx).
           destruct (ToString x); [now left|reflexivity].
        -- rewrite (fallback_chain_none _ _ Hx).
           destruct (is_nullish v); [now left|].
           destruct (typeof_object v) eqn:Ho; [now left|].
           destruct (primitive_coerces _ Ho) as [t Ht].
           unfold bind, String_, lift, ret, set_text. unfold bind.
           rewrite Ht. now left.
Qed.

(** The normaliser never makes suggestions up: the suggestions it returns
    are empty, or they are the very array stored under
    [follow_up_suggestions] in the payload's [data], in the payload, or in
    the [data] of the value that a string payload parses to. *)
Theorem suggestions_come_from_the_payload (payload : val) (r : locals) :
  parseAgentResponse payload = Return r ->
  suggestions_from payload (suggestions r).
Proof.
  intros Hr. pose proof (try_suggestions payload) as H.
  destruct (parseAgentResponse_try payload entry) as [[] r'|r'|env] eqn:E.
  - apply parseAgentResponse_of_normal in E. congruence.
  - apply parseAgentResponse_of_return in E. congruence.
  - apply parseAgentResponse_of_throw in E. subst env.
    rewrite E in Hr. injection Hr as <-. now left.
Qed.

End WithHost.

End NormalizerMore.

Module NormalizerMoreRuns.

Import Str JS Normalizer Shapes NormalizerFacts NormalizerMore.

#[local] Existing Instance Sample.host.

(** Suggestions that are a string and a number. *)
Lemma parseAgentResponse_returns_string_and_array_witness :
  "Hi there!" <> "" /\
  parseAgentResponse Sample.greeting
  = Return {| text := VStr "Hi there!";
              suggestions := VArr [VStr "Tell me more"; VNum 2%Z] |}.
Proof.
  assert (H : "Hi there!" <> "") by discriminate.
  split; [exact H|].
  exact (proj2 (@parseAgentResponse_returns_string_and_array Sample.host)
           "Hi there!" [VStr "Tell me more"; VNum 2%Z] H).
Defined.

(** An object whose [data.response] has an own [toString]. *)
Lemma outer_catch_iff_witness :
  selected_field_throws Sample.odd_response /\
  (exists env, parseAgentResponse_try Sample.odd_response entry = Throw env) /\
  parseAgentResponse Sample.odd_response
  = Return {| text := VStr "Unable to parse response.";
              suggestions := VArr [] |}.
Proof.
  assert (H : selected_field_throws Sample.odd_response)
    by (left; split; reflexivity).
  split; [exact H|]. split.
  - exact (proj2 (proj1 (outer_catch_iff Sample.odd_response)) H).
  - exact (proj2 (outer_catch_iff Sample.odd_response) H).
Defined.

(** The flat shape: the suggestions are the array of the payload. *)
Lemma suggestions_come_from_the_payload_witness :
  parseAgentResponse Sample.flat_answer
  = Return {| text := VStr "X";
              suggestions := VArr [VStr "s1"; VStr "s2"] |} /\
  suggestions_from Sample.flat_answer (VArr [VStr "s1"; VStr "s2"]).
Proof.
  split; [reflexivity|].
  exact (@suggestions_come_from_the_payload Sample.host Sample.flat_answer
           {| text := VStr "X"; suggestions := VArr [VStr "s1"; VStr "s2"] |}
           eq_refl).
Defined.

End NormalizerMoreRuns.

(** ** More on the markup renderer *)

Module MarkupMore.

Import Str Markup MarkupFacts.

(** The text a span was read from: its content, between its markers. *)
Definition source_of (sp : span) : string :=
  match sp with
  | Plain x => x
  | Strong x => "**" ++ x ++ "**"
  | Code x => "`" ++ x ++ "`"
  end.

Fixpoint source (parts : list span) : string :=
  match parts with
  | [] => ""
  | sp :: rest => source_of sp ++ source rest
  end.

(** A span that holds something: no span is empty, and an emphasised one
    stays on one line. *)
Definition span_ok (sp : span) : Prop :=
  match sp with
  | Plain x => x <> ""
  | Strong x | Code x => x <> "" /\ one_line x = true
  end.

(** Two plain spans in a row. *)
Fixpoint adjacent_plain (parts : list span) : bool :=
  match parts with
  | [] => false
  | Plain _ :: ((Plain _ :: _) as rest) => true
  | _ :: rest => adjacent_plain rest
  end.

(** The characters that open a pattern of [renderInline]. *)
Definition is_marker (c : ascii) : bool :=
  Ascii.eqb c "*" || Ascii.eqb c "`".

Fixpoint count_char (c : ascii) (s : string) : nat :=
  match s with
  | EmptyString => 0
  | String d r => (if Ascii.eqb d c then 1 else 0) + count_char c r
  end.

(** The inline content of a block, if it has one. *)
Definition content_of (b : block) : option inline :=
  match b with
  | Blank => None
  | Heading _ c | BulletItem c | NumberedItem _ c | Paragraph c => Some c
  end.

(** *** Inline spans *)

Lemma append_assoc (a b c : string) : (a ++ b) ++ c = a ++ b ++ c.
Proof. induction a as [|x a IH]; simpl; congruence. Qed.

Lemma append_empty_r (s : string) : s ++ "" = s.
Proof. induction s as [|c r IH]; simpl; congruence. Qed.

Lemma source_app (l1 l2 : list span) :
  source (l1 ++ l2) = source l1 ++ source l2.
Proof.
  induction l1 as [|sp l1 IH]; simpl; [reflexivity|].
  now rewrite IH, append_assoc.
Qed.

Lemma source_push_slice (s : string) : source (push_slice s) = s.
Proof. destruct s; simpl; [reflexivity|]. now rewrite append_empty_r. Qed.

Lemma match_here_source (s : string) (sp : span) (rest : string) :
  match_here s = Some (sp, rest) -> s = source_of sp ++ rest /\ span_ok sp.
Proof.
  destruct sp as [x|x|x]; intros H.
  - now apply match_here_plain in H.
  - apply match_here_strong in H as [(-> & Hne & Hl) _]. split; [|now split].
    simpl. now rewrite !append_assoc.
  - apply match_here_code in H as [(-> & Hne & Hl) _]. split; [|now split].
    simpl. now rewrite !append_assoc.
Qed.

Lemma source_scan (s : string) : source (scan s) = s.
Proof.
  funelim (scan s).
  - match goal with IH : source (scan _) = _ |- _ => rename IH into IH' end.
    destruct (exec_sound _ e) as (tail & Hs & Hm & _).
    destruct (match_here_source _ Hm) as [Ht _].
    rewrite source_app, source_push_slice. simpl.
    now rewrite IH', Hs, Ht.
  - apply source_push_slice.
Qed.

Lemma adjacent_plain_push (before : string) (sp : span) (l : list span) :
  (forall x, sp <> Plain x) ->
  adjacent_plain (push_slice before ++ sp :: l)%list = adjacent_plain l.
Proof.
  intros Hsp. destruct before; destruct sp; simpl; try reflexivity;
    now contradiction (Hsp s).
Qed.

Lemma scan_ok (s : string) :
  Forall span_ok (scan s) /\ adjacent_plain (scan s) = false.
Proof.
  funelim (scan s).
  - match goal with
    | IH : Forall span_ok (scan _) /\ _ |- _ => destruct IH as [IH1 IH2]
    end.
    destruct (exec_sound _ e) as (tail & Hs & Hm & _).
    pose proof (match_here_source _ Hm) as [_ Hok].
    split.
    + apply Forall_app. split.
      * destruct before; simpl; constructor; [discriminate|constructor].
      * now constructor.
    + rewrite adjacent_plain_push; [exact IH2|].
      intros x ->. now apply match_here_plain in Hm.
  - destruct s; simpl; split; auto. constructor; [discriminate|constructor].
Qed.

Lemma scan_non_empty (s : string) : s <> "" -> scan s <> [].
Proof.
  intros Hne E. pose proof (source_scan s) as H. rewrite E in H.
  simpl in H. congruence.
Qed.

Lemma renderInline_non_empty (s : string) :
  s <> "" -> renderInline s = Parts (scan s).
Proof.
  intros Hne. unfold renderInline.
  destruct (scan s) eqn:E; [now apply scan_non_empty in E|reflexivity].
Qed.

(** Rendering loses no character: writing each span back between its
    markers, in order, gives the text that was rendered. *)
Theorem scan_round_trip (text : string) : source (scan text) = text.
Proof. exact (source_scan text). Qed.

(** The parts are well formed: no span is empty, a bold or code span holds a
    text on one line, and two plain spans never follow one another. *)
Theorem scan_spans_well_formed (text : string) :
  Forall span_ok (scan text) /\ adjacent_plain (scan text) = false.
Proof. exact (scan_ok text). Qed.

(** [renderInline] hands back the text it was given, instead of a list of
    parts, for the empty text only; for any other text the list of parts has
    at least one span. *)
Theorem renderInline_raw_only_when_empty (text : string) :
  (renderInline text = Text text <-> text = "") /\
  (text <> "" -> renderInline text = Parts (scan text) /\ scan text <> []).
Proof.
  split; [split|].
  - intros H. destruct text as [|c r]; [reflexivity|].
    rewrite renderInline_non_empty in H by discriminate. discriminate.
  - intros ->. reflexivity.
  - intros Hne. split; [now apply renderInline_non_empty|].
    now apply scan_non_empty.
Qed.

Lemma renderInline_raw_only_when_empty_witness :
  "a*b" <> "" /\
  renderInline "a*b" = Parts (scan "a*b") /\ scan "a*b" <> [].
Proof.
  assert (H : "a*b" <> "") by discriminate.
  split; [exact H|].
  exact (proj2 (renderInline_raw_only_when_empty "a*b") H).
Defined.

Lemma match_here_no_marker (c : ascii) (r : string) :
  is_marker c = false -> match_here (String c r) = None.
Proof.
  unfold is_marker. intros H. apply orb_false_elim in H as [H1 H2].
  apply Ascii.eqb_neq in H1, H2.
  unfold match_here, delimited.
  rewrite !startsWith_other_head by congruence. reflexivity.
Qed.

Lemma exec_no_marker (s : string) :
  forall_chars (fun c => negb (is_marker c)) s = true -> exec s = None.
Proof.
  induction s as [|c r IH]; [reflexivity|]. simpl forall_chars.
  intros H. apply andb_prop in H as [Hc Hr]. apply negb_true_iff in Hc.
  cbn [exec]. now rewrite (match_here_no_marker c r Hc), (IH Hr).
Qed.

(** A text without asterisk and without backtick goes through unchanged, as
    one plain span. *)
Theorem unmarked_text_is_one_plain_span (text : string) :
  forall_chars (fun c => negb (is_marker c)) text = true ->
  text <> "" ->
  scan text = [Plain text] /\ renderInline text = Parts [Plain text].
Proof.
  intros H Hne.
  assert (S : scan text = [Plain text]).
  { rewrite scan_unfold, (exec_no_marker _ H).
    destruct text; [congruence|reflexivity]. }
  split; [exact S|]. now rewrite renderInline_non_empty, S.
Qed.

Lemma unmarked_text_is_one_plain_span_witness :
  forall_chars (fun c => negb (is_marker c)) "2 + 2 = 4, isn't it?" = true /\
  renderInline "2 + 2 = 4, isn't it?" = Parts [Plain "2 + 2 = 4, isn't it?"].
Proof.
  split; [reflexivity|].
  apply (@unmarked_text_is_one_plain_span "2 + 2 = 4, isn't it?");
    [reflexivity|discriminate].
Defined.

(** *** Lines *)

Lemma split_lines_length (s : string) :
  List.length (split_lines s) = S (count_char LF s).
Proof.
  induction s as [|c r IH]; simpl; [reflexivity|].
  destruct (Ascii.eqb c LF); simpl; [now rewrite IH|].
  destruct (split_lines r); simpl in *; congruence.
Qed.

Lemma split_lines_app (a b : string) :
  split_lines (a ++ chr LF ++ b) = (split_lines a ++ split_lines b)%list.
Proof.
  induction a as [|c a IH]; simpl.
  - reflexivity.
  - destruct (Ascii.eqb c LF); simpl.
    + simpl in IH. now rewrite IH.
    + simpl in IH. rewrite IH.
      destruct (split_lines a) as [|l ls] eqn:E; [|reflexivity].
      pose proof (split_lines_length a) as H. rewrite E in H. discriminate.
Qed.

(** The renderer gives one block per line: as many blocks as the content has
    line feeds, and one more; so never none. *)
Theorem MarkdownRenderer_block_count (content : string) :
  List.length (MarkdownRenderer content) = S (count_char LF content).
Proof.
  unfold MarkdownRenderer. now rewrite length_map, split_lines_length.
Qed.

(** Lines are rendered independently: the blocks of two texts joined by a
    line feed are the blocks of the first followed by those of the second. *)
Theorem MarkdownRenderer_app (a b : string) :
  MarkdownRenderer (a ++ chr LF ++ b)
  = (MarkdownRenderer a ++ MarkdownRenderer b)%list.
Proof.
  unfold MarkdownRenderer. now rewrite split_lines_app, map_app.
Qed.

(** *** White space around a line *)

Lemma trimStart_ws (l : string) :
  forall_chars is_white_space l = true -> trimStart l = "".
Proof.
  induction l as [|c l IH]; simpl; [reflexivity|].
  intros H. apply andb_prop in H as [-> Hl]. auto.
Qed.

Lemma trimEnd_ws (r : string) :
  forall_chars is_white_space r = true -> trimEnd r = "".
Proof.
  induction r as [|c r IH]; simpl; [reflexivity|].
  intros H. apply andb_prop in H as [Hc Hr]. now rewrite (IH Hr), Hc.
Qed.

Lemma trimStart_app_ws (l s : string) :
  forall_chars is_white_space l = true -> trimStart (l ++ s) = trimStart s.
Proof.
  induction l as [|c l IH]; simpl; [reflexivity|].
  intros H. apply andb_prop in H as [-> Hl]. auto.
Qed.

Lemma trimEnd_app_ws (s r : string) :
  forall_chars is_white_space r = true -> trimEnd (s ++ r) = trimEnd s.
Proof.
  intros Hr. induction s as [|c s IH]; simpl.
  - now apply trimEnd_ws.
  - now rewrite IH.
Qed.

Lemma trim_app_ws_r (s r : string) :
  forall_chars is_white_space r = true -> trim (s ++ r) = trim s.
Proof.
  intros Hr. unfold trim. induction s as [|c s IH]; simpl.
  - now rewrite (@trimStart_ws r Hr).
  - destruct (is_white_space c); [exact IH|].
    change (String c (s ++ r)) with (String c s ++ r).
    now apply trimEnd_app_ws.
Qed.

Lemma trim_around (l s r : string) :
  forall_chars is_white_space l = true ->
  forall_chars is_white_space r = true ->
  trim (l ++ s ++ r) = trim s.
Proof.
  intros Hl Hr. rewrite <- (@trim_app_ws_r s r Hr). unfold trim.
  now rewrite trimStart_app_ws.
Qed.

Lemma forall_chars_app (p : ascii -> bool) (a b : string) :
  forall_chars p (a ++ b) = forall_chars p a && forall_chars p b.
Proof.
  induction a as [|c a IH]; simpl; [reflexivity|].
  now rewrite IH, andb_assoc.
Qed.

Lemma trim_empty_iff (line : string) :
  trim line = "" <-> forall_chars is_white_space line = true.
Proof.
  split.
  - intros E. destruct (trim_spec line) as (l & r & Hs & Hl & Hr & _).
    rewrite E in Hs. rewrite Hs. simpl. now rewrite forall_chars_app, Hl, Hr.
  - intros H. unfold trim. now rewrite (@trimStart_ws line H).
Qed.

(** White space before and after a line changes nothing to its block:
    indentation and trailing blanks are not rendered. *)
Theorem render_line_ignores_surrounding_space (l line r : string) :
  forall_chars is_white_space l = true ->
  forall_chars is_white_space r = true ->
  render_line (l ++ line ++ r) = render_line line.
Proof.
  intros Hl Hr. unfold render_line. now rewrite (@trim_around l line r Hl Hr).
Qed.

Lemma render_line_ignores_surrounding_space_witness :
  forall_chars is_white_space (String TAB " ") = true /\
  forall_chars is_white_space (String CR "") = true /\
  render_line (String TAB " " ++ "- item" ++ String CR "")
  = render_line "- item".
Proof.
  split; [reflexivity|]. split; [reflexivity|].
  now apply render_line_ignores_surrounding_space.
Defined.

(** A line is rendered as the blank block exactly when it holds nothing but
    white space. *)
Theorem blank_iff_only_white_space (line : string) :
  render_line line = Blank <-> forall_chars is_white_space line = true.
Proof.
  rewrite <- trim_empty_iff. unfold render_line. split.
  - destruct (String.eqb_spec (trim line) "") as [E|E]; [auto|].
    repeat match goal with
           | |- context [if ?c then _ else _] => destruct c
           end; try discriminate.
    destruct (numMatch (trim line)) as [[g1 g2]|]; discriminate.
  - intros ->. reflexivity.
Qed.

(** *** What a block holds *)

Lemma slice_after_prefix (t p : string) :
  startsWith t p = true ->
  last_is is_white_space p = true ->
  last_is is_white_space t = false ->
  slice t (String.length p) <> "".
Proof.
  intros Hp Hlp Hlt E. apply startsWith_split in Hp.
  rewrite E, append_empty_r in Hp. congruence.
Qed.

Lemma first_line_non_empty (c : ascii) (r : string) :
  is_line_terminator c = false -> first_line (String c r) <> "".
Proof. intros Hc. rewrite (@first_line_cons c r Hc). discriminate. Qed.

Lemma render_line_content (line : string) :
  render_line line = Blank \/
  exists x, x <> "" /\ content_of (render_line line) = Some (renderInline x).
Proof.
  destruct (trim_spec line) as (l & r & _ & _ & _ & _ & Hlast).
  unfold render_line.
  destruct (String.eqb_spec (trim line) "") as [E|E]; [now left|right].
  destruct (startsWith (trim line) "### ") eqn:H3.
  { eexists. split; [|reflexivity].
    now apply (@slice_after_prefix (trim line) "### "). }
  destruct (startsWith (trim line) "## ") eqn:H2.
  { eexists. split; [|reflexivity].
    now apply (@slice_after_prefix (trim line) "## "). }
  destruct (startsWith (trim line) "# ") eqn:H1.
  { eexists. split; [|reflexivity].
    now apply (@slice_after_prefix (trim line) "# "). }
  destruct (startsWith (trim line) "- ") eqn:Hh.
  { eexists. split; [|reflexivity].
    now apply (@slice_after_prefix (trim line) "- "). }
  destruct (startsWith (trim line) "* ") eqn:Ha.
  { eexists. split; [|reflexivity].
    now apply (@slice_after_prefix (trim line) "* "). }
  simpl. destruct (numMatch (trim line)) as [[g1 g2]|] eqn:En.
  - apply numMatch_sound in En as (w & c & rest & (_ & _ & _ & _ & Hc) & ->).
    eexists. split; [|reflexivity]. now apply first_line_non_empty.
  - eexists. split; [exact E|reflexivity].
Qed.

(** Every block but the blank one shows something: its inline content is a
    list of parts with at least one span.  So a marker with nothing after it
    (a lone hash, hyphen or asterisk, digits and a dot) is never rendered as
    an empty heading or an empty list item. *)
Theorem non_blank_block_has_a_span (line : string) :
  render_line line = Blank \/
  exists parts,
    parts <> [] /\ content_of (render_line line) = Some (Parts parts).
Proof.
  destruct (render_line_content line) as [H|(x & Hx & H)]; [now left|right].
  exists (scan x). split; [now apply scan_non_empty|].
  now rewrite H, renderInline_non_empty.
Qed.

(** The index shown for a numbered item is a non-empty run of digits, the
    one the trimmed line starts with, followed by its dot. *)
Theorem numbered_index_is_leading_digits (line g : string) (c : inline) :
  render_line line = NumberedItem g c ->
  g <> "" /\ forall_chars is_digit g = true /\
  startsWith (trim line) (g ++ ".") = true.
Proof.
  unfold render_line.
  repeat match goal with
         | |- context [if ?b then _ else _] => destruct b; try discriminate
         end.
  destruct (numMatch (trim line)) as [[g1 g2]|] eqn:En; [|discriminate].
  intros [= <- _].
  apply numMatch_sound in En as (w & d & rest & (Ht & Hne & Hd & _) & _).
  repeat split; auto. rewrite Ht, <- append_assoc. apply startsWith_app.
Qed.

Lemma numbered_index_is_leading_digits_witness :
  render_line " 12. twelve" = NumberedItem "12" (Parts [Plain "twelve"]) /\
  "12" <> "" /\ forall_chars is_digit "12" = true /\
  startsWith (trim " 12. twelve") ("12" ++ ".") = true.
Proof.
  split; [reflexivity|].
  exact (@numbered_index_is_leading_digits " 12. twelve" "12"
           (Parts [Plain "twelve"]) eq_refl).
Defined.

End MarkupMore.

(** ** More on the send loop and the message bubbles *)

Module ChatMore.

Import Str JS Normalizer NormalizerFacts NormalizerMore Markup Chat ChatFacts.

Section WithHost.

Context {host : Host}.

#[local] Abbreviation val := (value number).

(** The id that [getNextId] makes of the counter value [n]. *)
Definition id_of (n : nat) : string :=
  "msg-" ++ NilEmpty.string_of_uint (Nat.to_uint n).

(** [disabled] of the send button: [!inputValue.trim() || isLoading]. *)
Definition send_disabled (st : state) : bool :=
  negb (non_empty (trim (inputValue st))) || isLoading st.

(** [handleKeyDown(e)], with [key] and [shiftKey] of the event: the turn it
    begins, if any. *)
Definition handleKeyDown (key : string) (shiftKey : bool) (ts : string)
  (st : state) : option (state * call) :=
  if String.eqb key "Enter" && negb shiftKey
  then sendMessage_begin (inputValue st) ts st
  else None.

(** The click on the send button, when the button is not disabled. *)
Definition send_click (ts : string) (st : state) : option (state * call) :=
  if send_disabled st then None else sendMessage_begin (inputValue st) ts st.

(** [(content ?? '').split('\n')] and the rest of [MarkdownRenderer], on the
    value a message holds: a value that is neither a string nor nullish has
    no [split] to call. *)
Definition MarkdownRenderer_value (content : val) : result (list block) :=
  match content with
  | VStr s => Ok (MarkdownRenderer s)
  | VUndefined | VNull => Ok (MarkdownRenderer "")
  | _ => Thrown
  end.

(** What React does with a value put between the tags of an element, when
    it mounts the element: a string or a number becomes a text node; a
    boolean, [null] and [undefined] show nothing; an array is walked, each
    element being a child in turn; an object that is not an element is
    refused, and the error is thrown out of the render.  No value of the
    model is an element. *)
Fixpoint React_child (v : val) : bool :=
  match v with
  | VObj _ => false
  | VArr l =>
      (fix all (l : list val) : bool :=
         match l with
         | [] => true
         | x :: rest => React_child x && all rest
         end) l
  | _ => true
  end.

(** [{v}] as the child of an element. *)
Definition child (v : val) : result val :=
  if React_child v then Ok v else Thrown.

(** What [MessageBubble] shows in the bubble, *)
Inductive bubble_body : Type :=
| UserParagraph (content : val)
| ErrorParagraph (content : val)
| MarkdownBody (blocks : list block).

(** and the bubble: its body, whether it has the copy button, and the
    suggestions it offers as buttons. *)
Record bubble : Type := {
  body : bubble_body;
  copy_button : bool;
  chips : list val
}.

(** [message.isError] as a condition. *)
Definition flagged (m : ChatMessage) : bool :=
  match isError m with Some true => true | _ => false end.

Definition isUser (m : ChatMessage) : bool :=
  match role m with user => true | assistant => false end.

(** The render of [MessageBubble({ message })]: the bubble that is mounted,
    or [Thrown] when the render throws, which it does when [MarkdownRenderer]
    throws and when the content of a paragraph or the label of a suggestion
    button is refused as a child. *)
Definition MessageBubble (m : ChatMessage) : result bubble :=
  let shown :=
    if isUser m then
      match child (content m) with
      | Ok c => Ok (UserParagraph c)
      | Thrown => Thrown
      end
    else if flagged m then
      match child (content m) with
      | Ok c => Ok (ErrorParagraph c)
      | Thrown => Thrown
      end
    else
      match MarkdownRenderer_value (content m) with
      | Ok blocks => Ok (MarkdownBody blocks)
      | Thrown => Thrown
      end in
  let offered :=
    if negb (isUser m) then
      match followUpSuggestions m with
      | Some (VArr (x :: l)) =>
          if forallb React_child (x :: l) then Ok (x :: l) else Thrown
      | _ => Ok []
      end
    else Ok [] in
  match shown, offered with
  | Ok b, Ok c =>
      Ok {| body := b;
            copy_button := negb (isUser m) && negb (flagged m);
            chips := c |}
  | _, _ => Thrown
  end.

(** The transcript as [Home] renders it: [displayMessages] is [messages]
    whenever there are any, and each of them is given to [MessageBubble]. *)
Definition renders (st : state) : bool :=
  forallb (fun m => match MessageBubble m with Ok _ => true | Thrown => false end)
          (messages st).

(** The page while it is mounted.  React renders [Home] again after each
    event that called a setter; nothing in the file catches an error thrown
    by a render, so the page is unmounted by it, and no handler runs on a
    page that is gone: [None]. *)
Definition mounted_step (w : option world) (e : event) : option world :=
  match w with
  | Some w => if renders (page (step w e)) then Some (step w e) else None
  | None => None
  end.

Definition mounted_run (es : list event) : option world :=
  fold_left mounted_step es (Some {| page := initial; in_flight := [] |}).

(** The three kinds of entry the page puts in the transcript. *)
Definition user_entry (m : ChatMessage) : Prop :=
  role m = user /\ isError m = None /\ followUpSuggestions m = None /\
  exists t, content m = VStr t /\ t <> "".

Definition answer_entry (m : ChatMessage) : Prop :=
  role m = assistant /\ isError m = None /\
  exists t l, content m = VStr t /\ t <> "" /\
              followUpSuggestions m = Some (VArr l).

Definition error_entry (m : ChatMessage) : Prop :=
  role m = assistant /\ isError m = Some true /\
  followUpSuggestions m = None /\ truthy (content m) = true.

Definition entry_shape (m : ChatMessage) : Prop :=
  user_entry m \/ answer_entry m \/ error_entry m.

(** The ids in the transcript were issued by the counter, each once. *)
Definition ids_issued (st : state) : Prop :=
  Forall (fun m => exists k, 1 <= k <= idCounter st /\ id m = id_of k)
         (messages st) /\
  NoDup (map id (messages st)).

(** The flags of the page agree with the calls in flight. *)
Definition flags_agree (w : world) : Prop :=
  (isLoading (page w) = true <-> in_flight w <> []) /\
  activeAgentId (page w)
  = (if isLoading (page w) then Some AGENT_ID else None).

End WithHost.

End ChatMore.

Module ChatMoreFacts.

Import Str JS Normalizer NormalizerFacts NormalizerMore Markup MarkupFacts.
Import MarkupMore Chat ChatFacts ChatMore.

Section WithHost.

Context {host : Host}.

#[local] Abbreviation val := (value number).

(** *** The two halves of [sendMessage] *)

Lemma begin_shape (text ts : string) (st st' : state) (c : call) :
  sendMessage_begin text ts st = Some (st', c) ->
  isLoading st = false /\ trim text <> "" /\
  st' = {| messages :=
             (messages st ++
              [{| id := id_of (S (idCounter st)); role := user;
                  content := VStr (trim text); timestamp := ts;
                  followUpSuggestions := None; isError := None |}])%list;
           inputValue := ""; isLoading := true;
           showNewChatConfirm := showNewChatConfirm st;
           activeAgentId := Some AGENT_ID;
           idCounter := S (idCounter st) |} /\
  c = {| call_message := trim text; call_agent := AGENT_ID |}.
Proof.
  unfold sendMessage_begin.
  destruct (non_empty (trim text)) eqn:Hne; simpl; [|discriminate].
  destruct (isLoading st); [discriminate|].
  intros [= <- <-]. apply non_empty_true in Hne. auto.
Qed.

Lemma begin_accepts (text ts : string) (st : state) :
  isLoading st = false -> trim text <> "" ->
  exists st' c, sendMessage_begin text ts st = Some (st', c).
Proof.
  intros Hl Hne. apply non_empty_true in Hne. unfold sendMessage_begin.
  rewrite Hne, Hl. simpl. eauto.
Qed.

Lemma begin_refuses (text ts : string) (st : state) :
  sendMessage_begin text ts st = None <->
  negb (non_empty (trim text)) || isLoading st = true.
Proof.
  unfold sendMessage_begin.
  destruct (negb (non_empty (trim text)) || isLoading st); simpl; split;
    intros H; try reflexivity; discriminate H.
Qed.

Lemma or_else_keeps_truthy (a b : val) :
  truthy b = true -> truthy (or_else a b) = true.
Proof. unfold or_else. destruct (truthy a) eqn:Ha; auto. Qed.

Lemma resume_shape (s : settlement) (ts ts' : string) (st : state) :
  exists m,
    sendMessage_resume s ts ts' st
    = {| messages := (messages st ++ [m])%list;
         inputValue := inputValue st; isLoading := false;
         showNewChatConfirm := showNewChatConfirm st;
         activeAgentId := None;
         idCounter := S (idCounter st) |} /\
    id m = id_of (S (idCounter st)) /\
    (answer_entry m \/ error_entry m).
Proof.
  destruct s as [result|]; unfold sendMessage_resume.
  - unfold on_result. destruct (truthy (result ?. "success")).
    + destruct (parseAgentResponse_typed (result ?. "response" ?. "result"))
        as (t & l & ->).
      eexists. split; [reflexivity|]. split; [reflexivity|]. left.
      repeat split. simpl. destruct t as [|c t].
      * exists "I received your message but have no response to display.", l.
        repeat split. discriminate.
      * exists (String c t), l. repeat split. discriminate.
    + eexists. split; [reflexivity|]. split; [reflexivity|]. right.
      repeat split. simpl.
      apply or_else_keeps_truthy, or_else_keeps_truthy. reflexivity.
  - eexists. split; [reflexivity|]. split; [reflexivity|]. right.
    repeat split.
Qed.

(** *** Induction on the runs of the page *)

Lemma run_invariant (P : world -> Prop) :
  P {| page := initial; in_flight := [] |} ->
  (forall w e, P w -> P (step w e)) ->
  forall es, P (run es).
Proof.
  intros H0 Hstep es. unfold run.
  generalize dependent {| page := initial; in_flight := [] |}.
  induction es as [|e es IH]; intros w Hw; simpl; auto.
Qed.

(** *** Ids *)

Lemma id_of_inj (a b : nat) : id_of a = id_of b -> a = b.
Proof.
  unfold id_of. simpl. intros [= H].
  apply DecimalNat.Unsigned.to_uint_inj.
  apply (f_equal NilEmpty.uint_of_string) in H.
  rewrite !NilEmpty.usu in H. congruence.
Qed.

Lemma ids_issued_append (st st' : state) (m : ChatMessage) :
  ids_issued st ->
  messages st' = (messages st ++ [m])%list ->
  idCounter st' = S (idCounter st) ->
  id m = id_of (S (idCounter st)) ->
  ids_issued st'.
Proof.
  intros [Hall Hnd] Hm Hc Hid. unfold ids_issued. rewrite Hm, Hc. split.
  - apply Forall_app. split.
    + eapply Forall_impl; [|exact Hall]. intros x (k & Hk & Hx).
      exists k. split; [lia|exact Hx].
    + constructor; [|constructor]. exists (S (idCounter st)). split; [lia|auto].
  - rewrite map_app. simpl.
    apply NoDup_app; [exact Hnd|repeat constructor; auto|].
    intros x Hin [Hx|[]]. subst x. apply in_map_iff in Hin as (y & Hy & Hin).
    rewrite Forall_forall in Hall. destruct (Hall y Hin) as (k & Hk & Hyk).
    rewrite Hid, Hyk in Hy. apply id_of_inj in Hy. lia.
Qed.

Lemma ids_issued_same (st st' : state) :
  ids_issued st ->
  messages st' = messages st -> idCounter st' = idCounter st ->
  ids_issued st'.
Proof. unfold ids_issued. intros H -> ->. exact H. Qed.

Lemma step_ids_issued (w : world) (e : event) :
  ids_issued (page w) -> ids_issued (page (step w e)).
Proof.
  intros H. destruct e as [text ts|s ts ts'|v| |]; cbn [step].
  - destruct (sendMessage_begin text ts (page w)) as [[st c]|] eqn:E; [|exact H].
    apply begin_shape in E as (_ & _ & -> & _).
    eapply ids_issued_append; eauto; reflexivity.
  - destruct (in_flight w); [exact H|]. cbn [page].
    destruct (resume_shape s ts ts' (page w)) as (m & -> & Hid & _).
    eapply ids_issued_append; eauto; reflexivity.
  - eapply ids_issued_same; eauto.
  - unfold handleNewChat.
    destruct (0 <? List.length (messages (page w)))%nat; [|exact H].
    eapply ids_issued_same; eauto.
  - split; simpl; constructor.
Qed.

(** The ids of the transcript are unique: along every run of the page, each
    entry carries an id made of a counter value that was issued once, so no
    two entries of the transcript share their id. *)
Theorem transcript_ids_unique (es : list event) :
  NoDup (map id (messages (page (run es)))) /\
  Forall (fun m => exists k, 1 <= k <= idCounter (page (run es)) /\
                             id m = id_of k)
         (messages (page (run es))).
Proof.
  assert (H : ids_issued (page (run es))).
  { apply (run_invariant (fun w => ids_issued (page w))).
    - split; simpl; constructor.
    - apply step_ids_issued. }
  destruct H; auto.
Qed.

(** *** The transcript *)

Lemma step_transcript (w : world) (e : event) :
  (e = ConfirmNewChat /\ messages (page (step w e)) = []) \/
  messages (page (step w e)) = messages (page w) \/
  exists m,
    messages (page (step w e)) = (messages (page w) ++ [m])%list /\
    entry_shape m.
Proof.
  destruct e as [text ts|s ts ts'|v| |]; cbn [step].
  - destruct (sendMessage_begin text ts (page w)) as [[st c]|] eqn:E; [|auto].
    apply begin_shape in E as (_ & Hne & -> & _).
    right. right. eexists. split; [reflexivity|]. left.
    repeat split. simpl. eauto.
  - destruct (in_flight w); [auto|]. cbn [page].
    destruct (resume_shape s ts ts' (page w)) as (m & -> & _ & Hm).
    right. right. exists m. split; [reflexivity|]. right. exact Hm.
  - auto.
  - right. left. unfold handleNewChat.
    destruct (0 <? List.length (messages (page w)))%nat; reflexivity.
  - auto.
Qed.

(** The transcript is append-only: apart from the confirmed new chat, which
    empties it, an event leaves the entries that are there as they are and
    adds at most one after them. *)
Theorem transcript_is_append_only (w : world) (e : event) :
  (e = ConfirmNewChat -> messages (page (step w e)) = []) /\
  (e <> ConfirmNewChat ->
   exists added,
     messages (page (step w e)) = (messages (page w) ++ added)%list /\
     (List.length added <= 1)%nat).
Proof.
  split.
  - intros ->. reflexivity.
  - intros Hne. destruct (step_transcript w e) as [[He _]|[H|(m & H & _)]].
    + contradiction.
    + exists []. rewrite app_nil_r. auto.
    + exists [m]. auto.
Qed.

Lemma step_entry_shapes (w : world) (e : event) :
  Forall entry_shape (messages (page w)) ->
  Forall entry_shape (messages (page (step w e))).
Proof.
  intros H. destruct (step_transcript w e) as [[_ ->]|[->|(m & -> & Hm)]].
  - constructor.
  - exact H.
  - apply Forall_app. split; [exact H|]. now constructor.
Qed.

Lemma run_entry_shapes (es : list event) :
  Forall entry_shape (messages (page (run es))).
Proof.
  apply (run_invariant (fun w => Forall entry_shape (messages (page w)))).
  - constructor.
  - apply step_entry_shapes.
Qed.

Lemma entry_shape_facts (m : ChatMessage) :
  entry_shape m ->
  truthy (content m) = true /\
  (isError m = Some true -> role m = assistant) /\
  (role m = user -> followUpSuggestions m = None) /\
  (isError m = Some true -> followUpSuggestions m = None) /\
  (isError m = None -> exists t, content m = VStr t /\ t <> "").
Proof.
  intros [(Hr & He & Hf & t & Hc & Ht)
         |[(Hr & He & t & l & Hc & Ht & Hf)|(Hr & He & Hf & Hc)]].
  - rewrite Hc. repeat split; try congruence; eauto.
    destruct t; simpl; congruence.
  - rewrite Hc. repeat split; try congruence; eauto.
    destruct t; simpl; congruence.
  - repeat split; try congruence.
Qed.

(** Along every run of the page, each entry of the transcript has a content
    that is not empty (a truthy value, and a non-empty string unless the
    entry is an error); an entry flagged as an error is an assistant entry;
    and neither the user's entries nor the error entries carry follow-up
    suggestions. *)
Theorem transcript_entries_are_well_formed (es : list event) (m : ChatMessage) :
  In m (messages (page (run es))) ->
  truthy (content m) = true /\
  (isError m = Some true -> role m = assistant) /\
  (role m = user -> followUpSuggestions m = None) /\
  (isError m = Some true -> followUpSuggestions m = None) /\
  (isError m = None -> exists t, content m = VStr t /\ t <> "").
Proof.
  intros Hin. apply entry_shape_facts.
  pose proof (run_entry_shapes es) as H. rewrite Forall_forall in H. auto.
Qed.

(** *** The flags *)

Lemma step_flags_agree (w : world) (e : event) :
  one_in_flight w -> flags_agree w -> flags_agree (step w e).
Proof.
  intros Hone [Hl Ha]. destruct e as [text ts|s ts ts'|v| |]; cbn [step].
  - destruct (sendMessage_begin text ts (page w)) as [[st c]|] eqn:E;
      [|now split].
    apply begin_shape in E as (_ & _ & -> & _). split; simpl.
    + split; [|reflexivity]. intros _. destruct (in_flight w); discriminate.
    + reflexivity.
  - destruct (in_flight w) as [|c rest] eqn:E;
      [split; [rewrite E; exact Hl|exact Ha]|].
    destruct (resume_shape s ts ts' (page w)) as (m & Hr & _).
    assert (rest = []) as ->.
    { destruct Hone as [H|[[c' H] _]]; congruence. }
    cbn [page in_flight]. rewrite Hr. split; simpl.
    + split; [discriminate|congruence].
    + reflexivity.
  - split; [exact Hl|exact Ha].
  - unfold handleNewChat.
    destruct (0 <? List.length (messages (page w)))%nat;
      (split; [exact Hl|exact Ha]).
  - split; [exact Hl|exact Ha].
Qed.

Lemma run_flags_agree (es : list event) :
  one_in_flight (run es) /\ flags_agree (run es).
Proof.
  apply (run_invariant (fun w => one_in_flight w /\ flags_agree w)).
  - split; [now left|]. split; simpl; [|reflexivity].
    split; [discriminate|congruence].
  - intros w e [H1 H2]. split.
    + now apply step_one_in_flight.
    + now apply step_flags_agree.
Qed.

(** The page is loading exactly while a call is in flight, and the agent is
    shown as active exactly while the page is loading: along every run the
    page is never left loading with no call to wait for. *)
Theorem loading_iff_call_in_flight (es : list event) :
  (isLoading (page (run es)) = true <-> in_flight (run es) <> []) /\
  activeAgentId (page (run es))
  = (if isLoading (page (run es)) then Some AGENT_ID else None).
Proof. exact (proj2 (run_flags_agree es)). Qed.

(** A submission made of white space only is ignored, loading or not: the
    page and the calls in flight stay as they are. *)
Theorem blank_submission_is_ignored (w : world) (text ts : string) :
  forall_chars is_white_space text = true ->
  step w (Submit text ts) = w.
Proof.
  intros H. apply trim_empty_iff in H. cbn [step].
  unfold sendMessage_begin. now rewrite H.
Qed.

(** What a turn that begins puts in the transcript and sends to the agent is
    the same text, the submitted one without the white space around it,
    which is not empty; the input is emptied and the page is loading. *)
Theorem turn_sends_the_trimmed_text
  (text ts : string) (st st' : state) (c : call) :
  sendMessage_begin text ts st = Some (st', c) ->
  exists u,
    messages st' = (messages st ++ [u])%list /\
    role u = user /\
    content u = VStr (call_message c) /\
    call_message c = trim text /\
    call_agent c = AGENT_ID /\
    trim text <> "" /\
    head_is is_white_space (trim text) = false /\
    last_is is_white_space (trim text) = false /\
    inputValue st' = "" /\ isLoading st' = true.
Proof.
  intros H. apply begin_shape in H as (_ & Hne & -> & ->).
  destruct (trim_spec text) as (l & r & _ & _ & _ & Hh & Hl).
  eexists. split; [reflexivity|]. simpl. auto 10.
Qed.

(** The key and the button agree with [sendMessage]: the send button is
    disabled exactly when [sendMessage] would ignore the input; Enter without
    Shift does what a click on the enabled button does, and nothing when the
    button is disabled; Enter with Shift, and any other key, submit
    nothing. *)
Theorem enter_key_and_send_button_agree (st : state) (ts : string) :
  (send_disabled st = true <->
   sendMessage_begin (inputValue st) ts st = None) /\
  handleKeyDown "Enter" false ts st = send_click ts st /\
  (send_disabled st = true -> handleKeyDown "Enter" false ts st = None) /\
  (forall key, handleKeyDown key true ts st = None) /\
  (forall key shift, key <> "Enter" -> handleKeyDown key shift ts st = None).
Proof.
  assert (A : send_disabled st = true <->
              sendMessage_begin (inputValue st) ts st = None).
  { unfold send_disabled. symmetry. apply begin_refuses. }
  split; [exact A|]. split; [|split; [|split]].
  - unfold handleKeyDown, send_click. simpl.
    destruct (send_disabled st) eqn:D; [|reflexivity]. now apply A.
  - intros D. unfold handleKeyDown. simpl. now apply A.
  - intros key. unfold handleKeyDown. now rewrite andb_false_r.
  - intros key shift Hk. unfold handleKeyDown.
    apply String.eqb_neq in Hk. now rewrite Hk.
Qed.

(** Clearing the chat does not cancel the call in flight: the page stays
    loading, and when the call settles its answer is appended to the emptied
    transcript, of which it is the only entry. *)
Theorem new_chat_keeps_the_call_in_flight
  (w : world) (c : call) (s : settlement) (ts ts' : string) :
  in_flight w = [c] ->
  in_flight (step w ConfirmNewChat) = [c] /\
  isLoading (page (step w ConfirmNewChat)) = isLoading (page w) /\
  messages (page (step w ConfirmNewChat)) = [] /\
  exists m,
    messages (page (step (step w ConfirmNewChat) (Settle s ts ts'))) = [m] /\
    role m = assistant.
Proof.
  intros Hc. cbn [step page in_flight]. rewrite Hc.
  repeat split.
  destruct (resume_shape s ts ts' (confirmNewChat (page w)))
    as (m & Hr & _ & Hm).
  exists m. cbn [page]. rewrite Hr. split; [reflexivity|].
  destruct Hm as [Hm|Hm]; apply Hm.
Qed.

(** *** The bubbles *)

Lemma MarkdownRenderer_non_empty (content : string) :
  MarkdownRenderer content <> [].
Proof.
  intros E. pose proof (split_lines_length content) as H.
  unfold MarkdownRenderer in E. apply map_eq_nil in E. now rewrite E in H.
Qed.

Lemma bubble_of_user (m : ChatMessage) :
  user_entry m ->
  MessageBubble m
  = Ok {| body := UserParagraph (content m); copy_button := false;
          chips := [] |}.
Proof.
  intros (Hr & He & Hf & t & Hc & Ht).
  unfold MessageBubble, isUser, flagged, child. rewrite Hr, Hc. reflexivity.
Qed.

Lemma bubble_of_answer (m : ChatMessage) (t : string) (l : list val) :
  role m = assistant -> isError m = None ->
  content m = VStr t -> followUpSuggestions m = Some (VArr l) ->
  MessageBubble m
  = if forallb React_child l
    then Ok {| body := MarkdownBody (MarkdownRenderer t); copy_button := true;
               chips := l |}
    else Thrown.
Proof.
  intros Hr He Hc Hf.
  unfold MessageBubble, isUser, flagged, MarkdownRenderer_value.
  rewrite Hr, He, Hc, Hf. cbn [negb andb].
  destruct l as [|x l]; [reflexivity|].
  destruct (forallb React_child (x :: l)); reflexivity.
Qed.

Lemma bubble_of_error (m : ChatMessage) :
  error_entry m ->
  MessageBubble m
  = if React_child (content m)
    then Ok {| body := ErrorParagraph (content m); copy_button := false;
               chips := [] |}
    else Thrown.
Proof.
  intros (Hr & He & Hf & Hc).
  unfold MessageBubble, isUser, flagged, child. rewrite Hr, He, Hf.
  cbn [negb andb]. destruct (React_child (content m)); reflexivity.
Qed.

Lemma bubble_of_shape (m : ChatMessage) :
  entry_shape m ->
  (MessageBubble m = Thrown <->
   (isError m = Some true /\ React_child (content m) = false) \/
   (isError m = None /\
    exists l, followUpSuggestions m = Some (VArr l) /\
              forallb React_child l = false)) /\
  (role m = user ->
   MessageBubble m
   = Ok {| body := UserParagraph (content m); copy_button := false;
           chips := [] |}) /\
  (forall b,
      MessageBubble m = Ok b ->
      (forall blocks,
          body b = MarkdownBody blocks ->
          role m = assistant /\ isError m = None /\ blocks <> [] /\
          exists t, content m = VStr t /\ blocks = MarkdownRenderer t) /\
      (chips b <> [] -> role m = assistant /\ isError m = None) /\
      (copy_button b = true <-> role m = assistant /\ isError m = None)).
Proof.
  intros [Hu|[Ha|He]].
  - rewrite (bubble_of_user Hu).
    destruct Hu as (Hr & He & Hf & t & Hc & Ht).
    split; [|split].
    + split; [discriminate|].
      intros [[H _]|(_ & l & H & _)]; congruence.
    + reflexivity.
    + intros b [= <-]. simpl. split; [discriminate|].
      split; [congruence|]. split; [discriminate|]. intros [H _]. congruence.
  - destruct Ha as (Hr & He & t & l & Hc & Ht & Hf).
    rewrite (bubble_of_answer _ Hr He Hc Hf).
    split; [|split].
    + split.
      * intros H. right. split; [exact He|]. exists l. split; [exact Hf|].
        destruct (forallb React_child l); [discriminate H|reflexivity].
      * intros [[H _]|(_ & l' & H & Hl)]; [congruence|].
        assert (l' = l) as -> by congruence. now rewrite Hl.
    + congruence.
    + intros b Hb. destruct (forallb React_child l); [|discriminate Hb].
      injection Hb as <-. simpl. split; [|split; [|split]]; auto.
      intros blocks [= <-]. split; [exact Hr|]. split; [exact He|].
      split; [apply MarkdownRenderer_non_empty|]. exists t. auto.
  - rewrite (bubble_of_error He).
    destruct He as (Hr & He & Hf & Hc).
    split; [|split].
    + split.
      * intros H. left. split; [exact He|].
        destruct (React_child (content m)); [discriminate H|reflexivity].
      * intros [[_ H]|(H & _)]; [now rewrite H|congruence].
    + congruence.
    + intros b Hb. destruct (React_child (content m)); [|discriminate Hb].
      injection Hb as <-. simpl. split; [discriminate|].
      split; [congruence|]. split; [discriminate|]. intros [_ H]. congruence.
Qed.

(** Along every run of the page, the render of the bubble of a transcript
    entry throws in two cases only: the entry is an error whose content React
    refuses as a child, an object or an array that holds one, or it is an
    answer with such a value among its suggestions.  The bubble of a user's
    entry always renders; [MarkdownRenderer] never throws, as it is given
    non-empty strings only, and gives at least one block; and in a bubble
    that renders, markdown, suggestion buttons and the copy button appear for
    the assistant's entries without error flag only. *)
Theorem transcript_bubbles_render_or_throw (es : list event) (m : ChatMessage) :
  In m (messages (page (run es))) ->
  (MessageBubble m = Thrown <->
   (isError m = Some true /\ React_child (content m) = false) \/
   (isError m = None /\
    exists l, followUpSuggestions m = Some (VArr l) /\
              forallb React_child l = false)) /\
  (role m = user ->
   MessageBubble m
   = Ok {| body := UserParagraph (content m); copy_button := false;
           chips := [] |}) /\
  (forall b,
      MessageBubble m = Ok b ->
      (forall blocks,
          body b = MarkdownBody blocks ->
          role m = assistant /\ isError m = None /\ blocks <> [] /\
          exists t, content m = VStr t /\ blocks = MarkdownRenderer t) /\
      (chips b <> [] -> role m = assistant /\ isError m = None) /\
      (copy_button b = true <-> role m = assistant /\ isError m = None)).
Proof.
  intros Hin. apply bubble_of_shape.
  pose proof (run_entry_shapes es) as H. rewrite Forall_forall in H. auto.
Qed.

(** *** The page while it is mounted *)

Lemma unmounted_stays (es : list event) : fold_left mounted_step es None = None.
Proof. induction es as [|e es IH]; simpl; auto. Qed.

Lemma mounted_fold (es : list event) (w0 w : world) :
  fold_left mounted_step es (Some w0) = Some w ->
  renders (page w0) = true ->
  w = fold_left step es w0 /\ renders (page w) = true.
Proof.
  revert w0; induction es as [|e es IH]; intros w0; simpl.
  - intros [= <-] H. auto.
  - destruct (renders (page (step w0 e))) eqn:R.
    + intros H _. now apply IH.
    + rewrite unmounted_stays. discriminate.
Qed.

Lemma mounted_run_is_run (es : list event) (w : world) :
  mounted_run es = Some w -> w = run es /\ renders (page w) = true.
Proof.
  intros H. exact (@mounted_fold es {| page := initial; in_flight := [] |} w
                     H eq_refl).
Qed.

Lemma renders_append (st st' : state) (m : ChatMessage) :
  messages st' = (messages st ++ [m])%list ->
  renders st = true ->
  renders st' = match MessageBubble m with Ok _ => true | Thrown => false end.
Proof.
  unfold renders. intros -> H. rewrite forallb_app, H. simpl.
  now rewrite andb_true_r.
Qed.

(** After the call in flight has settled on a mounted page, the loading flag
    is cleared and no call is in flight, whatever the outcome; the page is
    still mounted unless the bubble of the entry just appended throws, which
    the entry of a rejected call never does; and on the page still mounted a
    submission of a text that is not blank begins a turn that sends the
    trimmed text, after which the page is still mounted. *)
Theorem page_accepts_after_settlement
  (es : list event) (w : world) (s : settlement) (ts ts' text ts2 : string) :
  mounted_run es = Some w ->
  in_flight w <> [] ->
  trim text <> "" ->
  exists m,
    messages (page (step w (Settle s ts ts')))
    = (messages (page w) ++ [m])%list /\
    in_flight (step w (Settle s ts ts')) = [] /\
    isLoading (page (step w (Settle s ts ts'))) = false /\
    (MessageBubble m = Thrown ->
     mounted_step (Some w) (Settle s ts ts') = None) /\
    (s = Rejected -> MessageBubble m <> Thrown) /\
    (MessageBubble m <> Thrown ->
     mounted_step (Some w) (Settle s ts ts')
     = Some (step w (Settle s ts ts')) /\
     exists st c,
       sendMessage_begin text ts2 (page (step w (Settle s ts ts')))
       = Some (st, c) /\
       call_message c = trim text /\
       mounted_step (Some (step w (Settle s ts ts'))) (Submit text ts2)
       = Some {| page := st; in_flight := [c] |}).
Proof.
  intros Hm Hin Hne. apply mounted_run_is_run in Hm as [-> Hr].
  destruct (run_flags_agree es) as [Hone _].
  destruct (in_flight (run es)) as [|c0 rest] eqn:E; [congruence|].
  assert (rest = []) as ->.
  { destruct Hone as [H|[[c' H] _]]; congruence. }
  destruct (resume_shape s ts ts' (page (run es))) as (m & Hs & _ & Hshape).
  assert (Hstep : step (run es) (Settle s ts ts')
                  = {| page := sendMessage_resume s ts ts' (page (run es));
                       in_flight := [] |}).
  { cbn [step]. now rewrite E. }
  rewrite Hstep. cbn [page in_flight]. unfold mounted_step. rewrite Hstep.
  cbn [page]. rewrite Hs. cbn [messages isLoading].
  assert (Hrn : renders
                  {| messages := (messages (page (run es)) ++ [m])%list;
                     inputValue := inputValue (page (run es));
                     isLoading := false;
                     showNewChatConfirm := showNewChatConfirm (page (run es));
                     activeAgentId := None;
                     idCounter := S (idCounter (page (run es))) |}
                = match MessageBubble m with Ok _ => true | Thrown => false end).
  { now apply (@renders_append (page (run es))). }
  exists m. split; [reflexivity|]. split; [reflexivity|].
  split; [reflexivity|]. split; [|split].
  - intros Ht. now rewrite Hrn, Ht.
  - intros ->. unfold sendMessage_resume, network_error, finally_ in Hs.
    simpl in Hs. injection Hs as Hs. apply app_inv_head in Hs.
    injection Hs as <-. discriminate.
  - intros Hok. rewrite Hrn.
    destruct (MessageBubble m) as [b|] eqn:Hb; [|congruence].
    split; [reflexivity|].
    match goal with
    | |- context [sendMessage_begin _ _ ?p] =>
        destruct (@begin_accepts text ts2 p eq_refl Hne) as (st & c & Hbeg);
        assert (Rp : renders p = true) by (now rewrite Hrn)
    end.
    exists st, c. split; [exact Hbeg|].
    cbn [step page in_flight]. rewrite Hbeg.
    pose proof Hbeg as Hsh. apply begin_shape in Hsh as (_ & _ & Hst & Hc).
    split; [now rewrite Hc|].
    assert (Rst : renders st = true).
    { rewrite Hst. unfold renders in *. cbn [messages] in *.
      rewrite forallb_app, Rp. reflexivity. }
    cbn [page app]. now rewrite Rst.
Qed.

(** *** The confirmation bar *)

Lemma step_confirm_bar (w : world) (e : event) :
  (showNewChatConfirm (page w) = true -> messages (page w) <> []) ->
  showNewChatConfirm (page (step w e)) = true ->
  messages (page (step w e)) <> [].
Proof.
  intros H. destruct e as [text ts|s ts ts'|v| |]; cbn [step].
  - destruct (sendMessage_begin text ts (page w)) as [[st c]|] eqn:E; [|exact H].
    apply begin_shape in E as (_ & _ & -> & _). simpl.
    intros _. destruct (messages (page w)); discriminate.
  - destruct (in_flight w); [exact H|].
    destruct (resume_shape s ts ts' (page w)) as (m & Hr & _).
    cbn [page]. rewrite Hr. simpl.
    intros _. destruct (messages (page w)); discriminate.
  - exact H.
  - cbn [page]. unfold handleNewChat.
    destruct (messages (page w)) as [|m ms] eqn:E; simpl; [|discriminate].
    rewrite E. exact H.
  - discriminate.
Qed.

(** The confirmation bar of the new chat is never shown over an empty
    transcript: along every run, when it is shown there is something to
    clear. *)
Theorem confirm_bar_only_over_messages (es : list event) :
  showNewChatConfirm (page (run es)) = true ->
  messages (page (run es)) <> [].
Proof.
  apply (run_invariant
           (fun w => showNewChatConfirm (page w) = true ->
                     messages (page w) <> [])).
  - discriminate.
  - apply step_confirm_bar.
Qed.

(** *** From the payload to the bubble *)

(** The whole way of an answer with the nested shape: when the call succeeds
    with a payload whose [data.response] is truthy and coerces to a text that
    is not empty, the entry appended holds that text, and, unless one of the
    elements of [data.follow_up_suggestions] is refused as a child, in which
    case the render throws, its bubble renders the text as markdown with the
    copy button and offers those elements as suggestion buttons, in their
    order. *)
Theorem nested_answer_reaches_the_bubble
  (result : val) (ts ts' : string) (st : state) (t : string) (l : list val) :
  truthy (result ?. "success") = true ->
  truthy (result ?. "response" ?. "result" ?. "data" ?. "response") = true ->
  ToString (result ?. "response" ?. "result" ?. "data" ?. "response") = Ok t ->
  t <> "" ->
  result ?. "response" ?. "result" ?. "data" ?. "follow_up_suggestions"
  = VArr l ->
  exists m,
    messages (sendMessage_resume (Fulfilled result) ts ts' st)
    = (messages st ++ [m])%list /\
    content m = VStr t /\
    MessageBubble m
    = if forallb React_child l
      then Ok {| body := MarkdownBody (MarkdownRenderer t);
                 copy_button := true; chips := l |}
      else Thrown.
Proof.
  intros Hs Hn Ht Hne Hf.
  assert (Hp : parseAgentResponse (result ?. "response" ?. "result")
               = Return {| text := VStr t; suggestions := VArr l |}).
  { apply parseAgentResponse_of_return.
    rewrite (try_nested _ _ Hn), (nested_block_run _ _ Hn), Ht, Hf.
    reflexivity. }
  unfold sendMessage_resume, on_result. rewrite Hs, Hp.
  eexists. split; [reflexivity|].
  destruct t as [|c t]; [congruence|]. split; [reflexivity|].
  now apply bubble_of_answer.
Qed.

End WithHost.

End ChatMoreFacts.

(** *** The send loop and the bubbles on concrete runs *)

Module ChatMoreRuns.

Import Str JS Normalizer Markup Chat ChatFacts ChatMore ChatMoreFacts.

#[local] Existing Instance Sample.host.

(** A turn that the agent answers with a failure, and one it answers with
    suggestions. *)
Definition failed_turn : list event :=
  [Submit "Hello" "2:30 PM";
   Settle (Fulfilled Sample.failed) "2:31 PM" "2:31 PM"].

Definition answered_turn : list event :=
  [Submit "Hello" "2:30 PM";
   Settle (Fulfilled Sample.greeting_ok) "2:31 PM" "2:31 PM"].

(** A turn that the agent answers with a failure whose [error] is an
    object. *)
Definition failed_with_object : Sample.payload :=
  VObj [("success", VBool false); ("error", VObj [("code", VNum 500%Z)])].

Definition object_turn : list event :=
  [Submit "Hello" "2:30 PM";
   Settle (Fulfilled failed_with_object) "2:31 PM" "2:31 PM"].

Lemma transcript_entries_are_well_formed_witness :
  exists u m,
    messages (page (run failed_turn)) = [u; m] /\
    truthy (content m) = true /\ role m = assistant /\
    followUpSuggestions m = None.
Proof.
  eexists. eexists. split; [reflexivity|].
  match goal with
  | |- truthy (content ?m) = true /\ _ =>
      destruct (@transcript_entries_are_well_formed Sample.host failed_turn m
                  (or_intror (or_introl eq_refl)))
        as (H1 & H2 & _ & H4 & _)
  end.
  split; [exact H1|]. split; [apply H2; reflexivity|apply H4; reflexivity].
Defined.

(** The bubble of the user's entry renders, that of the error entry whose
    content is an object throws. *)
Lemma transcript_bubbles_render_or_throw_witness :
  exists u m,
    messages (page (run object_turn)) = [u; m] /\
    MessageBubble u
    = Ok {| body := UserParagraph (VStr "Hello"); copy_button := false;
            chips := [] |} /\
    content m = VObj [("code", VNum 500%Z)] /\
    MessageBubble m = Thrown.
Proof.
  eexists. eexists. split; [reflexivity|].
  match goal with
  | |- MessageBubble ?u = _ /\ content ?m = _ /\ _ =>
      destruct (@transcript_bubbles_render_or_throw Sample.host object_turn u
                  (or_introl eq_refl)) as (_ & Hu & _);
      destruct (@transcript_bubbles_render_or_throw Sample.host object_turn m
                  (or_intror (or_introl eq_refl))) as (Hm & _)
  end.
  split; [apply Hu; reflexivity|]. split; [reflexivity|].
  apply Hm. left. split; reflexivity.
Defined.

(** A call that is rejected, and the next submission. *)
Lemma page_accepts_after_settlement_witness :
  mounted_run [Submit "Hello" "2:30 PM"]
  = Some (run [Submit "Hello" "2:30 PM"]) /\
  in_flight (run [Submit "Hello" "2:30 PM"]) <> [] /\
  trim " next " <> "" /\
  exists m,
    messages (page (step (run [Submit "Hello" "2:30 PM"])
                      (Settle Rejected "2:31 PM" "2:31 PM")))
    = (messages (page (run [Submit "Hello" "2:30 PM"])) ++ [m])%list /\
    MessageBubble m <> Thrown /\
    exists st c,
      sendMessage_begin " next " "2:32 PM"
        (page (step (run [Submit "Hello" "2:30 PM"])
                (Settle Rejected "2:31 PM" "2:31 PM")))
      = Some (st, c) /\
      call_message c = "next" /\
      mounted_step
        (Some (step (run [Submit "Hello" "2:30 PM"])
                 (Settle Rejected "2:31 PM" "2:31 PM")))
        (Submit " next " "2:32 PM")
      = Some {| page := st; in_flight := [c] |}.
Proof.
  assert (H0 : mounted_run [Submit "Hello" "2:30 PM"]
               = Some (run [Submit "Hello" "2:30 PM"])) by reflexivity.
  assert (H1 : in_flight (run [Submit "Hello" "2:30 PM"]) <> [])
    by discriminate.
  assert (H2 : trim " next " <> "") by discriminate.
  split; [exact H0|]. split; [exact H1|]. split; [exact H2|].
  destruct (@page_accepts_after_settlement Sample.host
              [Submit "Hello" "2:30 PM"] _ Rejected
              "2:31 PM" "2:31 PM" " next " "2:32 PM" H0 H1 H2)
    as (m & Hm & _ & _ & _ & Hr & Hok).
  exists m. split; [exact Hm|]. split; [exact (Hr eq_refl)|].
  exact (proj2 (Hok (Hr eq_refl))).
Defined.

Lemma blank_submission_is_ignored_witness :
  forall_chars is_white_space (String TAB (String LF "  ")) = true /\
  step (run [Submit "Hello" "2:30 PM"; Settle Rejected "2:31 PM" "2:31 PM"])
    (Submit (String TAB (String LF "  ")) "2:32 PM")
  = run [Submit "Hello" "2:30 PM"; Settle Rejected "2:31 PM" "2:31 PM"].
Proof.
  split; [reflexivity|].
  now apply (@blank_submission_is_ignored Sample.host).
Defined.

Lemma turn_sends_the_trimmed_text_witness :
  exists st c u,
    sendMessage_begin "  Hello there " "2:30 PM" initial = Some (st, c) /\
    messages st = [u] /\
    content u = VStr "Hello there" /\ call_message c = "Hello there".
Proof.
  eexists. eexists.
  destruct (@turn_sends_the_trimmed_text Sample.host
              "  Hello there " "2:30 PM" initial _ _ eq_refl)
    as (u & Hm & _ & Hc & Ht & _).
  exists u. split; [reflexivity|]. split; [exact Hm|].
  split; [|exact Ht]. rewrite Hc. reflexivity.
Defined.

Lemma new_chat_keeps_the_call_in_flight_witness :
  in_flight (run [Submit "Hello" "2:30 PM"])
  = [{| call_message := "Hello"; call_agent := AGENT_ID |}] /\
  exists m,
    messages
      (page (run [Submit "Hello" "2:30 PM"; ConfirmNewChat;
                  Settle (Fulfilled Sample.greeting_ok) "2:31 PM" "2:31 PM"]))
    = [m] /\
    role m = assistant.
Proof.
  split; [reflexivity|].
  exact (proj2 (proj2 (proj2
           (@new_chat_keeps_the_call_in_flight Sample.host
              (run [Submit "Hello" "2:30 PM"]) _
              (Fulfilled Sample.greeting_ok) "2:31 PM" "2:31 PM" eq_refl)))).
Defined.

Lemma confirm_bar_only_over_messages_witness :
  showNewChatConfirm
    (page (run [Submit "Hello" "2:30 PM"; NewChat])) = true /\
  messages (page (run [Submit "Hello" "2:30 PM"; NewChat])) <> [].
Proof.
  split; [reflexivity|].
  exact (@confirm_bar_only_over_messages Sample.host
           [Submit "Hello" "2:30 PM"; NewChat] eq_refl).
Defined.

Lemma nested_answer_reaches_the_bubble_witness :
  exists m,
    messages (sendMessage_resume (Fulfilled Sample.greeting_ok)
                "2:31 PM" "2:31 PM" initial) = [m] /\
    content m = VStr "Hi there!" /\
    MessageBubble m
    = Ok {| body := MarkdownBody [Paragraph (Parts [Plain "Hi there!"])];
            copy_button := true;
            chips := [VStr "Tell me more"; VNum 2%Z] |}.
Proof.
  assert (Hne : "Hi there!" <> "") by discriminate.
  exact (@nested_answer_reaches_the_bubble Sample.host Sample.greeting_ok
           "2:31 PM" "2:31 PM" initial "Hi there!"
           [VStr "Tell me more"; VNum 2%Z]
           eq_refl eq_refl eq_refl Hne eq_refl).
Defined.

Lemma transcript_is_append_only_witness :
  Submit "Hello" "2:30 PM" <> ConfirmNewChat /\
  exists added,
    messages (page (step {| page := initial; in_flight := [] |}
                      (Submit "Hello" "2:30 PM")))
    = (messages initial ++ added)%list /\
    (List.length added <= 1)%nat.
Proof.
  assert (H : Submit "Hello" "2:30 PM" <> ConfirmNewChat) by discriminate.
  split; [exact H|].
  exact (proj2 (@transcript_is_append_only Sample.host
                  {| page := initial; in_flight := [] |}
                  (Submit "Hello" "2:30 PM")) H).
Defined.

Lemma enter_key_and_send_button_agree_witness :
  send_disabled initial = true /\
  handleKeyDown "Enter" false "2:30 PM" initial = None.
Proof.
  split; [reflexivity|].
  destruct (@enter_key_and_send_button_agree Sample.host initial "2:30 PM")
    as (_ & _ & H & _).
  apply H. reflexivity.
Defined.

End ChatMoreRuns.
